(** * CPU walkthrough simulator (src/App.tsx): playback state machine

    A shallow embedding of the logical core of [CpuSimulator]: the seed
    memory table, the authored script, the three click handlers, and what
    the render function derives from the state: the per-cell highlighting
    predicate, the row labels and the controls.

    Modelling decisions, all taken from the TypeScript source:

    - A JavaScript [number] that only ever holds an integer is a [Z].
    - An optional field ([pc?: number]) and a nullable one
      ([busActive: ... | null]) are an [option].
    - The memory cells are JavaScript objects.  The array literal
      [INITIAL_MEMORY] allocates eight of them once, when the module is
      loaded; [[...memory]] copies the array but not the objects, and
      [cell.content = update.value] writes into the object itself.  The
      embedding therefore keeps an object store ([Store], cell objects
      addressed by reference) and represents an array of cells by the list
      of the references it holds.  No array is ever changed after it is
      built, so an array is represented by its value.
    - Reading a property of [undefined] throws a [TypeError]; a handler
      that may do so returns an [option] and [None] stands for the throw.
    - One click runs one handler on the state captured by the last render
      and the state setters take effect together before the next click, so
      a handler is a function from the state to the next state. *)

From Stdlib Require Import ZArith Ascii String List Bool Lia DecimalString DecimalZ.
From stdpp Require Import base option list.

Import ListNotations.
Local Open Scope string_scope.
Local Open Scope Z_scope.

(** ** Types *)

Inductive CellType := instruction | data | empty.

Inductive Phase := FETCH | DECODE | EXECUTE | IDLE.

Record MemoryCell := {
  address : Z;
  content : string;
  type : CellType;
  description : option string
}.

Record BusActive := {
  bus_from : string;
  bus_to : string;
  bus_value : string
}.

Record MemoryUpdate := {
  upd_address : Z;
  upd_value : string
}.

Record Step := {
  step_id : Z;
  phase : Phase;
  title : string;
  message : string;
  activeComponents : list string;
  busActive : option BusActive;
  pc : option Z;
  ir : option string;
  acc : option Z;
  mar : option Z;
  mdr : option string;
  aluOperation : option string;
  memoryUpdates : option (list MemoryUpdate)
}.

(** A reference to a cell object, and the store of cell objects. *)
Abbreviation Ref := nat (only parsing).
Abbreviation Store := (list MemoryCell) (only parsing).

(** [cell.content = v]: the write goes to the object, every array holding
    the reference sees it. *)
Definition set_content (v : string) (c : MemoryCell) : MemoryCell :=
  {| address := address c; content := v;
     type := type c; description := description c |}.

(** ** Constants *)

(** The eight object literals of [INITIAL_MEMORY], in allocation order. *)
Definition INITIAL_MEMORY_cells : Store :=
  [ {| address := 0; content := "LOAD 10"; type := instruction;
       description := Some "データ読込" |};
    {| address := 1; content := "ADD 11"; type := instruction;
       description := Some "加算" |};
    {| address := 2; content := "STORE 12"; type := instruction;
       description := Some "保存" |};
    {| address := 3; content := "HALT"; type := instruction;
       description := Some "終了" |};
    {| address := 4; content := "0000"; type := empty;
       description := None |};
    {| address := 10; content := "3"; type := data;
       description := Some "データA" |};
    {| address := 11; content := "5"; type := data;
       description := Some "データB" |};
    {| address := 12; content := "0"; type := data;
       description := Some "結果格納用" |} ].

(** The array [INITIAL_MEMORY] itself: references to those objects. *)
Definition INITIAL_MEMORY : list Ref := [0; 1; 2; 3; 4; 5; 6; 7]%nat.

Definition mkStep (i : Z) (ph : Phase) (t m : string) (ac : list string)
    (bus : option BusActive) (p : Z) (a : Z) (r : string)
    (alu : option string) (mu : option (list MemoryUpdate)) : Step :=
  {| step_id := i; phase := ph; title := t; message := m;
     activeComponents := ac; busActive := bus;
     pc := Some p; ir := Some r; acc := Some a;
     mar := None; mdr := None;
     aluOperation := alu; memoryUpdates := mu |}.

Definition bus (f t v : string) : option BusActive :=
  Some {| bus_from := f; bus_to := t; bus_value := v |}.

Definition SCENARIO : list Step :=
  [ mkStep 0 IDLE "シミュレーション開始"
      "CPUの仕組みを学習しましょう。右側がメモリ、左側がCPUです。現在は初期状態です。これからプログラムを実行して「3 + 5」の計算を行います。"
      [] None 0 0 "" None None;
    mkStep 1 FETCH "命令フェッチ (アドレス指定)"
      "まず、次に実行すべき命令がどこにあるかを確認します。「プログラムカウンタ(PC)」は「0番地」を指していますね。"
      ["PC"; "AddressBus"; "Memory"] (bus "PC" "Memory" "0")
      0 0 "" None None;
    mkStep 2 FETCH "命令フェッチ (命令取出し)"
      "メモリの0番地から命令を取り出します。「LOAD 10」という命令が、データバスを通ってCPUの「命令レジスタ(IR)」へ運ばれます。"
      ["Memory"; "DataBus"; "IR"] (bus "Memory" "IR" "LOAD 10")
      0 0 "LOAD 10" None None;
    mkStep 3 FETCH "PC更新"
      "命令を取り出したので、プログラムカウンタ(PC)を自動的に1つ進めます。これで次の準備もOKです。"
      ["PC"] None 1 0 "LOAD 10" None None;
    mkStep 4 DECODE "命令解読 (デコード)"
      "制御装置が「LOAD 10」を解読します。「10番地のデータを、作業机(アキュムレータ)に持ってこい」という命令ですね。"
      ["CU"; "IR"] None 1 0 "LOAD 10" None None;
    mkStep 5 EXECUTE "実行 (データ読出し)"
      "10番地のデータを読みに行きます。メモリの10番地には「3」が入っています。"
      ["CU"; "AddressBus"; "Memory"] (bus "CU" "Memory" "10")
      1 0 "LOAD 10" None None;
    mkStep 6 EXECUTE "実行 (データ格納)"
      "データ「3」がデータバスを通って、アキュムレータ(ACC)に置かれました。これで計算の準備第一段階が完了です。"
      ["Memory"; "DataBus"; "ACC"] (bus "Memory" "ACC" "3")
      1 3 "LOAD 10" None None;
    mkStep 7 FETCH "命令フェッチ (アドレス指定)"
      "さあ、次の命令に進みます。PCは「1番地」を指しています。"
      ["PC"; "AddressBus"; "Memory"] (bus "PC" "Memory" "1")
      1 3 "" None None;
    mkStep 8 FETCH "命令フェッチ (命令取出し)"
      "1番地の命令「ADD 11」を取り出して、命令レジスタに入れます。"
      ["Memory"; "DataBus"; "IR"] (bus "Memory" "IR" "ADD 11")
      1 3 "ADD 11" None None;
    mkStep 9 FETCH "PC更新"
      "PCを「2」に進めます。"
      ["PC"] None 2 3 "ADD 11" None None;
    mkStep 10 DECODE "命令解読 (デコード)"
      "制御装置(監督)が考えます。「ADD…これは足し算だ！演算装置(計算係)、準備してくれ！相手は11番地のデータだ！」"
      ["CU"; "IR"; "ALU"] None 2 3 "ADD 11" None None;
    mkStep 11 EXECUTE "実行 (オペランド読出し)"
      "計算相手のデータを呼び寄せます。11番地には「5」が入っていますね。"
      ["CU"; "AddressBus"; "Memory"] (bus "CU" "Memory" "11")
      2 3 "ADD 11" None None;
    mkStep 12 EXECUTE "実行 (演算処理)"
      "データ「5」が演算装置に届きました！元々あった「3」と、今来た「5」を合体させます！"
      ["Memory"; "DataBus"; "ALU"] (bus "Memory" "ALU" "5")
      2 3 "ADD 11" (Some "3 + 5") None;
    mkStep 13 EXECUTE "実行 (結果書込み)"
      "計算完了！ 3 + 5 = 8 です。結果の「8」がアキュムレータに上書きされます。"
      ["ALU"; "ACC"] (bus "ALU" "ACC" "8")
      2 8 "ADD 11" (Some "Done") None;
    mkStep 14 FETCH "命令フェッチ"
      "計算結果を保存しましょう。PCは「2番地」を指しています。"
      ["PC"; "AddressBus"; "Memory"] (bus "PC" "Memory" "2")
      2 8 "" None None;
    mkStep 15 FETCH "命令フェッチ"
      "「STORE 12」命令を取り出します。"
      ["Memory"; "DataBus"; "IR"] (bus "Memory" "IR" "STORE 12")
      2 8 "STORE 12" None None;
    mkStep 16 FETCH "PC更新"
      "PCを「3」に進めます。"
      ["PC"] None 3 8 "STORE 12" None None;
    mkStep 17 DECODE "命令解読"
      "「STORE 12」…これは「今の値を12番地に書き込め」という命令です。"
      ["CU"; "IR"] None 3 8 "STORE 12" None None;
    mkStep 18 EXECUTE "実行 (データ書込み)"
      "アキュムレータにある「8」を、データバスを通じてメモリの12番地に送ります。"
      ["ACC"; "DataBus"; "AddressBus"; "Memory"] (bus "ACC" "Memory" "8")
      3 8 "STORE 12" None
      (Some [ {| upd_address := 12; upd_value := "8" |} ]);
    mkStep 19 IDLE "完了"
      "これで一連の処理が完了しました。メモリの12番地に正しく「8」が保存されましたね。"
      ["Memory"] None 3 8 "HALT" None None ].


(** ** JavaScript primitives used by the component *)

(** [arr[i]] for a number [i]: [undefined] ([None]) outside the array. *)
Definition at_index {A : Type} (arr : list A) (i : Z) : option A :=
  if 0 <=? i then arr !! Z.to_nat i else None.

(** [arr.length] as a number. *)
Definition length_of {A : Type} (arr : list A) : Z := Z.of_nat (length arr).

(** [String(n)] for an integer [n]: its decimal digits, [-] in front of a
    negative one. *)
Definition String_of_number (n : Z) : string :=
  NilZero.string_of_int (Z.to_int n).

(** [arr.includes(s)] on an array of strings. *)
Definition includes (arr : list string) (s : string) : bool :=
  existsb (String.eqb s) arr.

(** [newMemory.find(m => m.address === a)]: the first reference whose cell
    has address [a], [Some None] when there is none ([undefined]); the
    outer [None] is the [TypeError] of reading [.address] through a
    reference that holds no cell. *)
Fixpoint find_cell (s : Store) (a : Z) (arr : list Ref) : option (option Ref) :=
  match arr with
  | [] => Some None
  | r :: rest =>
      m ← s !! r;
      if address m =? a then Some (Some r) else find_cell s a rest
  end.

(** One turn of the [forEach] callback of [handleNext]:
    [const cell = newMemory.find(...); if (cell) cell.content = update.value]. *)
Definition apply_update (arr : list Ref) (s : Store) (update : MemoryUpdate)
    : option Store :=
  cell ← find_cell s (upd_address update) arr;
  match cell with
  | Some r => Some (alter (set_content (upd_value update)) r s)
  | None => Some s
  end.

(** [nextStep.memoryUpdates.forEach(update => ...)], in array order. *)
Fixpoint apply_updates (arr : list Ref) (updates : list MemoryUpdate)
    (s : Store) : option Store :=
  match updates with
  | [] => Some s
  | update :: rest => s' ← apply_update arr s update; apply_updates arr rest s'
  end.

(** ** The component state and its handlers *)

(** [store] is the module-level population of cell objects; the other three
    fields are the [useState] hooks of [CpuSimulator]. *)
Record State := {
  store : Store;
  currentStepIndex : Z;
  memory : list Ref;
  isAnimating : bool
}.

(** First render: [useState(0)], [useState(INITIAL_MEMORY)],
    [useState(false)], over the freshly allocated cell objects. *)
Definition initialState : State :=
  {| store := INITIAL_MEMORY_cells; currentStepIndex := 0;
     memory := INITIAL_MEMORY; isAnimating := false |}.

Definition handleReset (st : State) : State :=
  {| store := store st; currentStepIndex := 0;
     memory := INITIAL_MEMORY; isAnimating := false |}.

Definition handleNext (st : State) : option State :=
  if currentStepIndex st <? length_of SCENARIO - 1 then
    let nextIndex := currentStepIndex st + 1 in
    nextStep ← at_index SCENARIO nextIndex;
    match memoryUpdates nextStep with
    | Some updates =>
        let newMemory := memory st in
        s' ← apply_updates newMemory updates (store st);
        Some {| store := s'; currentStepIndex := nextIndex;
                memory := newMemory; isAnimating := true |}
    | None =>
        Some {| store := store st; currentStepIndex := nextIndex;
                memory := memory st; isAnimating := true |}
    end
  else Some st.

Definition handlePrev (st : State) : State :=
  if currentStepIndex st >? 0 then
    {| store := store st;
       currentStepIndex := currentStepIndex st - 1;
       memory := if currentStepIndex st <=? 18 then INITIAL_MEMORY
                 else memory st;
       isAnimating := isAnimating st |}
  else st.

(** The callback armed by [setTimeout] in [handleNext]:
    [setIsAnimating(false)].  When it fires is not modelled; it may be
    taken at any point of a run. *)
Definition animationTimeout (st : State) : State :=
  {| store := store st; currentStepIndex := currentStepIndex st;
     memory := memory st; isAnimating := false |}.

(** [const step = SCENARIO[currentStepIndex]]. *)
Definition currentStep (st : State) : option Step :=
  at_index SCENARIO (currentStepIndex st).

(** What [memory.map((cell) => ...)] walks over: the cell each reference of
    the array leads to, in array order. *)
Definition rendered (st : State) : option (list MemoryCell) :=
  mapM (fun r => store st !! r) (memory st).

(** The memory seen as a mapping from addresses: the cell that [find]
    reaches for an address. *)
Definition cell_at (s : Store) (arr : list Ref) (a : Z) : option MemoryCell :=
  match find_cell s a arr with
  | Some (Some r) => s !! r
  | _ => None
  end.

Definition memory_at (st : State) (a : Z) : option MemoryCell :=
  cell_at (store st) (memory st) a.

(** Clicks and the timer, and runs of them. *)
Inductive Event := Next | Prev | Reset | Timeout.

Definition handle (e : Event) (st : State) : option State :=
  match e with
  | Next => handleNext st
  | Prev => Some (handlePrev st)
  | Reset => Some (handleReset st)
  | Timeout => Some (animationTimeout st)
  end.

Fixpoint run (events : list Event) (st : State) : option State :=
  match events with
  | [] => Some st
  | e :: rest => st' ← handle e st; run rest st'
  end.

(** ** Highlighting of a memory cell (the body of [memory.map]) *)

Definition isActive (step : Step) (compName : string) : bool :=
  includes (activeComponents step) compName.

(** [step.busActive?.f === s]: [undefined === s] is false. *)
Definition bus_field_is (f : BusActive -> string) (step : Step) (s : string)
    : bool :=
  match busActive step with
  | Some b => String.eqb (f b) s
  | None => false
  end.

(** [step.memoryUpdates?.some(u => u.address === cell.address)]. *)
Definition updates_some (step : Step) (cell : MemoryCell) : bool :=
  match memoryUpdates step with
  | Some updates => existsb (fun u => upd_address u =? address cell) updates
  | None => false
  end.

Definition isTarget (step : Step) (cell : MemoryCell) : bool :=
  isActive step "Memory" &&
  ( (bus_field_is bus_to step "Memory" && bus_field_is bus_value step (content cell))
    || (bus_field_is bus_from step "Memory" && bus_field_is bus_value step (content cell))
    || (bus_field_is bus_from step "CU"
        && bus_field_is bus_value step (String_of_number (address cell)))
    || (bus_field_is bus_from step "PC"
        && bus_field_is bus_value step (String_of_number (address cell)))
    || updates_some step cell ).

(** [String(step.busActive?.value)] is the text [undefined] when there is
    no transfer. *)
Definition isAddressed (step : Step) (cell : MemoryCell) : bool :=
  isActive step "AddressBus" &&
  String.eqb
    (match busActive step with
     | Some b => bus_value b
     | None => "undefined"
     end)
    (String_of_number (address cell)).

(** The class test of the cell's [div]: [isAddressed || isTarget]. *)
Definition highlighted (step : Step) (cell : MemoryCell) : bool :=
  isAddressed step cell || isTarget step cell.

(** ** Reference notions used to state the properties *)

(** Every reference of the array leads to a cell object, which is what the
    type [MemoryCell[]] promises. *)
Definition all_cells (s : Store) (arr : list Ref) : bool :=
  forallb (fun r => Nat.ltb r (length s)) arr.

(** A memory mapping, address to cell, and the overwrite of the content at
    one address: nothing happens at an address the mapping does not have. *)
Definition Mapping := Z -> option MemoryCell.

Definition overwrite (m : Mapping) (update : MemoryUpdate) : Mapping :=
  fun a =>
    if a =? upd_address update
    then (fun c => {| address := address c; content := upd_value update;
                      type := type c; description := description c |})
         <$> m a
    else m a.

Definition overwrite_all (updates : list MemoryUpdate) (m : Mapping) : Mapping :=
  fold_left overwrite updates m.

(** [step.memoryUpdates] read as a list, empty when the field is missing. *)
Definition updates_of (step : Step) : list MemoryUpdate :=
  default [] (memoryUpdates step).

(** The seed table as authored, a plain table of cell values. *)
Definition seed_table : list MemoryCell := INITIAL_MEMORY_cells.

(** The memory that section 3 of the specification prescribes at position
    [p]: the seed table with the [memoryUpdates] of steps [1..p] applied in
    step order, a later write to an address replacing an earlier one. *)
Definition spec_write (table : list MemoryCell) (update : MemoryUpdate)
    : list MemoryCell :=
  map (fun c => if address c =? upd_address update
                then {| address := address c; content := upd_value update;
                        type := type c; description := description c |}
                else c) table.

Definition spec_updates (p : nat) : list MemoryUpdate :=
  flat_map updates_of (take p (drop 1 SCENARIO)).

Definition spec_memory (p : nat) : list MemoryCell :=
  fold_left spec_write (spec_updates p) seed_table.

(** The store once step 18 has written: the object for address 12 holds
    the text 8. *)
Definition STORED_cells : Store :=
  alter (set_content "8") 7%nat INITIAL_MEMORY_cells.

(** What holds of every state a session can be in. *)
Definition session_inv (st : State) : Prop :=
  memory st = INITIAL_MEMORY /\
  0 <= currentStepIndex st < length_of SCENARIO /\
  ((store st = INITIAL_MEMORY_cells /\ currentStepIndex st < 18)
   \/ store st = STORED_cells).

(** ** Concrete runs and states *)

(** [n] clicks on "next" in a fresh session. *)
Definition after (n : nat) : option State := run (repeat Next n) initialState.

(** The cell a table of cell values has for an address. *)
Definition table_at (table : list MemoryCell) (a : Z) : option MemoryCell :=
  List.find (fun c => address c =? a) table.

(** The state after seventeen clicks on "next" in a fresh session. *)
Definition before_store : State :=
  {| store := INITIAL_MEMORY_cells; currentStepIndex := 17;
     memory := INITIAL_MEMORY; isAnimating := true |}.

(** The state on the last step of a session played to its end. *)
Definition at_last_step : State :=
  {| store := STORED_cells; currentStepIndex := 19;
     memory := INITIAL_MEMORY; isAnimating := false |}.

(** Step 18 of the script, the one that stores. *)
Definition store_step : Step :=
  mkStep 18 EXECUTE "実行 (データ書込み)"
    "アキュムレータにある「8」を、データバスを通じてメモリの12番地に送ります。"
    ["ACC"; "DataBus"; "AddressBus"; "Memory"] (bus "ACC" "Memory" "8")
    3 8 "STORE 12" None
    (Some [ {| upd_address := 12; upd_value := "8" |} ]).

(** ** Highlighting, as worded and as coded *)

(** Highlighting as the specification words it: a match of the transfer value
    on the cell's address when the transfer leaves PC or CU or the address
    bus is active, a match on the cell's content when Memory is an end of
    the transfer, or an update of the step at the cell's address. *)
Definition targeting_as_specified (step : Step) (cell : MemoryCell) : Prop :=
  (exists b, busActive step = Some b /\
     bus_value b = String_of_number (address cell) /\
     (bus_from b = "PC" \/ bus_from b = "CU" \/ isActive step "AddressBus" = true))
  \/ (exists b, busActive step = Some b /\
        (bus_from b = "Memory" \/ bus_to b = "Memory") /\
        bus_value b = content cell)
  \/ (exists u, In u (updates_of step) /\ upd_address u = address cell).

(** The same with the guard of the source: every case but the one of the
    active address bus needs Memory among the active components. *)
Definition targeting_as_coded (step : Step) (cell : MemoryCell) : Prop :=
  (isActive step "AddressBus" = true /\
   exists b, busActive step = Some b /\
     bus_value b = String_of_number (address cell))
  \/ (isActive step "Memory" = true /\
      ((exists b, busActive step = Some b /\
          (bus_from b = "PC" \/ bus_from b = "CU") /\
          bus_value b = String_of_number (address cell))
       \/ (exists b, busActive step = Some b /\
             (bus_from b = "Memory" \/ bus_to b = "Memory") /\
             bus_value b = content cell)
       \/ (exists u, In u (updates_of step) /\ upd_address u = address cell))).

(** A step that moves a value out of Memory while Memory is not listed as
    active, and a cell holding that value. *)
Definition unlisted_memory_step : Step :=
  mkStep 0 FETCH "" "" ["DataBus"; "IR"] (bus "Memory" "IR" "HALT")
    0 0 "" None None.

Definition halt_cell : MemoryCell :=
  {| address := 3; content := "HALT"; type := instruction;
     description := Some "終了" |}.


(** ** The controls and the rows of the memory panel *)

(** [disabled={currentStepIndex === 0}] on the "back" button. *)
Definition prevDisabled (st : State) : bool := currentStepIndex st =? 0.

(** The forward control: the "next" button while
    [currentStepIndex < SCENARIO.length - 1], the "start over" button, bound
    to [handleReset], otherwise. *)
Inductive ForwardControl := NextButton | ResetButton.

Definition forwardControl (st : State) : ForwardControl :=
  if currentStepIndex st <? length_of SCENARIO - 1
  then NextButton else ResetButton.

(** [s.padStart(targetLength, c)] for a one-character filler: the filler
    is repeated in front of [s] up to the target length, and [s] is
    returned as it is when it is long enough. *)
Fixpoint repeat_char (c : ascii) (n : nat) : string :=
  match n with
  | O => EmptyString
  | S n' => String c (repeat_char c n')
  end.

Definition padStart (s : string) (targetLength : nat) (c : ascii) : string :=
  String.append (repeat_char c (targetLength - String.length s)) s.

(** [String(cell.address).padStart(2, '0')], the label of a row. *)
Definition addressLabel (cell : MemoryCell) : string :=
  padStart (String_of_number (address cell)) 2 "0"%char.

(** The addresses of the rows that carry the highlight, in row order:
    [memory.map] evaluates [isAddressed || isTarget] on every cell against
    the step on screen. *)
Definition highlightedAddresses (st : State) : option (list Z) :=
  step ← currentStep st;
  cells ← rendered st;
  Some (map address (List.filter (highlighted step) cells)).

(** Two cell values that differ at most in [content]. *)
Definition same_but_content (c c' : MemoryCell) : Prop :=
  address c' = address c /\ type c' = type c /\
  description c' = description c.

(** The value the last update of a list carries for an address. *)
Definition last_write (updates : list MemoryUpdate) (a : Z) : option string :=
  upd_value <$> List.find (fun u => upd_address u =? a) (rev updates).

(** A run passes through position [p]: some prefix of it ends there. *)
Definition visits (p : Z) (events : list Event) (st : State) : Prop :=
  exists es1 es2 st1,
    events = (es1 ++ es2)%list /\ run es1 st = Some st1 /\
    currentStepIndex st1 = p.

(** The integers JavaScript numbers hold exactly. *)
Definition safe_integer (n : Z) : Prop := - 2 ^ 53 < n < 2 ^ 53.

(** Reading a label back as a number, to tell labels apart. *)
Definition read_label (s : string) : option Z :=
  Z.of_int <$> NilZero.int_of_string s.

(** Two writes to address 12 around one to address 10. *)
Definition three_updates : list MemoryUpdate :=
  [ {| upd_address := 12; upd_value := "7" |};
    {| upd_address := 10; upd_value := "4" |};
    {| upd_address := 12; upd_value := "8" |} ].

(** ** What a write has to achieve, stated without the handlers *)

(** [r] is the first element of the array whose cell has address [a]: the
    cell object a write to address [a] has to reach. *)
Definition first_with_address (s : Store) (arr : list Ref) (a : Z) (r : Ref)
    : Prop :=
  exists i, arr !! i = Some r /\ address <$> s !! r = Some a /\
    forall j r', (j < i)%nat -> arr !! j = Some r' ->
                 address <$> s !! r' <> Some a.

(** In a list of updates the last one for address [a] carries the value
    [v]; the list has no update for address [a]. *)
Definition last_update_for (updates : list MemoryUpdate) (a : Z) (v : string)
    : Prop :=
  exists before u after,
    updates = (before ++ u :: after)%list /\
    upd_address u = a /\ upd_value u = v /\
    Forall (fun u' => upd_address u' <> a) after.

Definition no_update_for (updates : list MemoryUpdate) (a : Z) : Prop :=
  Forall (fun u => upd_address u <> a) updates.

(** What a list of updates has to do to the cell object behind reference
    [r], which held [c] and holds [c'] afterwards: address, type and
    description stay; the content becomes the value of the last update for
    the cell's address when [r] is the first cell of the array with that
    address, and stays in every other case. *)
Definition written_by (s : Store) (arr : list Ref)
    (updates : list MemoryUpdate) (r : Ref) (c c' : MemoryCell) : Prop :=
  address c' = address c /\ type c' = type c /\
  description c' = description c /\
  (forall v, first_with_address s arr (address c) r ->
             last_update_for updates (address c) v -> content c' = v) /\
  (no_update_for updates (address c) -> content c' = content c) /\
  (~ first_with_address s arr (address c) r -> content c' = content c).

(** ** Facts about the primitives *)

Example SCENARIO_length : length_of SCENARIO = 20.
Proof. reflexivity. Qed.

Lemma at_index_in_range {A : Type} (arr : list A) (i : Z) :
  0 <= i < length_of arr -> is_Some (at_index arr i).
Proof.
  intros [Hlo Hhi]. unfold at_index, length_of in *.
  destruct (Z.leb_spec 0 i) as [_|]; [|lia].
  apply lookup_lt_is_Some. lia.
Qed.

Lemma at_index_Some {A : Type} (arr : list A) (i : Z) (x : A) :
  at_index arr i = Some x -> 0 <= i < length_of arr.
Proof.
  unfold at_index, length_of.
  destruct (Z.leb_spec 0 i) as [Hle|]; [|discriminate].
  intros H. apply lookup_lt_Some in H. lia.
Qed.

(** [String(n)] of a number never reads [undefined]: it starts with a digit
    or with the minus sign. *)
Lemma String_of_number_defined (n : Z) : String_of_number n <> "undefined".
Proof.
  unfold String_of_number.
  destruct (Z.to_int n) as [d|d]; simpl; [|discriminate].
  destruct d; simpl; discriminate.
Qed.

Lemma includes_In (arr : list string) (s : string) :
  includes arr s = true <-> In s arr.
Proof.
  unfold includes. rewrite existsb_exists. split.
  - intros (x & Hx & Heq). apply String.eqb_eq in Heq. now subst.
  - intros H. exists s. split; [assumption | apply String.eqb_refl].
Qed.

Section StoreFacts.

Variable arr : list Ref.

Lemma all_cells_alter (f : MemoryCell -> MemoryCell) (s : Store) (r : Ref) :
  all_cells (alter f r s) arr = all_cells s arr.
Proof. unfold all_cells. now rewrite length_alter. Qed.

(** With every reference leading to a cell, [find] does not throw. *)
Lemma find_cell_total (s : Store) (a : Z) :
  all_cells s arr = true -> is_Some (find_cell s a arr).
Proof.
  unfold all_cells. induction arr as [|r rest IH]; simpl; intros H.
  - eauto.
  - apply andb_prop in H as [Hr Hrest]. apply Nat.ltb_lt in Hr.
    destruct (lookup_lt_is_Some_2 s r Hr) as [c ->]. simpl.
    destruct (address c =? a); eauto.
Qed.

(** What [find] returns is a cell of the array with the address asked. *)
Lemma find_cell_found (s : Store) (a : Z) (r : Ref) :
  find_cell s a arr = Some (Some r) ->
  In r arr /\ exists c, s !! r = Some c /\ address c = a.
Proof.
  induction arr as [|r0 rest IH]; simpl; [discriminate|].
  destruct (s !! r0) as [c|] eqn:Hc; simpl; [|discriminate].
  destruct (Z.eqb_spec (address c) a) as [Ha|Ha].
  - intros [= <-]. split; [now left | eauto].
  - intros H. destruct (IH H) as [Hin Hex]. split; [now right | exact Hex].
Qed.

(** A write to [content] does not change what [find] returns: only
    addresses are compared. *)
Lemma find_cell_alter (s : Store) (v : string) (r : Ref) (a : Z) :
  find_cell (alter (set_content v) r s) a arr = find_cell s a arr.
Proof.
  induction arr as [|r0 rest IH]; simpl; [reflexivity|].
  rewrite list_lookup_alter. destruct (decide (r = r0)) as [->|Hne].
  - destruct (s !! r0) as [c|]; simpl; [|reflexivity].
    destruct (address c =? a); [reflexivity | exact IH].
  - destruct (s !! r0) as [c|]; simpl; [|reflexivity].
    destruct (address c =? a); [reflexivity | exact IH].
Qed.

(** The mapping after a write through the reference that [find] gave for
    address [a]. *)
Lemma cell_at_alter (s : Store) (v : string) (r : Ref) (a a' : Z) :
  find_cell s a arr = Some (Some r) ->
  cell_at (alter (set_content v) r s) arr a' =
  if a' =? a then set_content v <$> cell_at s arr a' else cell_at s arr a'.
Proof.
  intros Hfind. unfold cell_at. rewrite find_cell_alter.
  destruct (Z.eqb_spec a' a) as [->|Hne].
  - rewrite Hfind. apply list_lookup_alter_eq.
  - destruct (find_cell s a' arr) as [[r'|]|] eqn:Hfind'; try reflexivity.
    apply list_lookup_alter_ne. intros ->.
    apply find_cell_found in Hfind as (_ & c & Hc & Hca).
    apply find_cell_found in Hfind' as (_ & c' & Hc' & Hca').
    congruence.
Qed.

(** One [forEach] turn, read on the mapping. *)
Lemma apply_update_overwrite (s : Store) (update : MemoryUpdate) :
  all_cells s arr = true ->
  exists s', apply_update arr s update = Some s' /\
    all_cells s' arr = true /\
    forall a, cell_at s' arr a = overwrite (cell_at s arr) update a.
Proof.
  intros Hok. unfold apply_update.
  destruct (find_cell_total s (upd_address update) Hok) as [[r|] Hfind];
    rewrite Hfind; simpl.
  - eexists; split; [reflexivity|]. split.
    + now rewrite all_cells_alter.
    + intros a. unfold overwrite. now apply cell_at_alter.
  - exists s. repeat split; [assumption|].
    intros a. unfold overwrite.
    destruct (Z.eqb_spec a (upd_address update)) as [->|]; [|reflexivity].
    unfold cell_at. now rewrite Hfind.
Qed.

Lemma overwrite_all_ext (updates : list MemoryUpdate) (m1 m2 : Mapping) :
  (forall a, m1 a = m2 a) ->
  forall a, overwrite_all updates m1 a = overwrite_all updates m2 a.
Proof.
  revert m1 m2. induction updates as [|u rest IH]; intros m1 m2 H a; simpl.
  - apply H.
  - apply IH. intros a0. unfold overwrite. now rewrite H.
Qed.

(** The whole [forEach], read on the mapping: it does not throw and it
    overwrites address by address, in array order. *)
Lemma apply_updates_overwrite (updates : list MemoryUpdate) (s : Store) :
  all_cells s arr = true ->
  exists s', apply_updates arr updates s = Some s' /\
    all_cells s' arr = true /\
    forall a, cell_at s' arr a = overwrite_all updates (cell_at s arr) a.
Proof.
  revert s. induction updates as [|u rest IH]; intros s Hok; simpl.
  - exists s. auto.
  - destruct (apply_update_overwrite s u Hok) as (s1 & -> & Hok1 & Hmap1).
    simpl. destruct (IH s1 Hok1) as (s' & Hrun & Hok' & Hmap').
    exists s'. repeat split; [assumption..|].
    intros a. rewrite Hmap'. now apply overwrite_all_ext.
Qed.

End StoreFacts.

(** ** The states of a session *)

(** Case analysis on a position of the script. *)
Lemma position_cases (i : Z) :
  0 <= i < length_of SCENARIO -> exists k : nat, i = Z.of_nat k /\ (k < 20)%nat.
Proof.
  rewrite SCENARIO_length. intros H. exists (Z.to_nat i). lia.
Qed.

Ltac peel k n :=
  lazymatch n with
  | O => idtac
  | S ?n' => destruct k as [|k]; [|peel k n']
  end.

Ltac each_position H :=
  let k := fresh "k" in
  let Hk := fresh "Hk" in
  apply position_cases in H as (k & -> & Hk);
  peel k 20%nat; [..|exfalso; lia].

Lemma session_inv_initial : session_inv initialState.
Proof.
  unfold session_inv; simpl. rewrite SCENARIO_length.
  repeat split; try lia. left. split; [reflexivity|lia].
Qed.


Lemma handleNext_inv (st : State) :
  session_inv st -> exists st', handleNext st = Some st' /\ session_inv st'.
Proof.
  destruct st as [s i m b]. unfold session_inv; simpl.
  intros (-> & Hi & [[-> Hlt]| ->]); each_position Hi;
    try (exfalso; simpl in Hlt; lia);
    (eexists; split; [reflexivity|]); simpl;
    (split; [reflexivity|]); (split; [rewrite SCENARIO_length; lia|]);
    first [ right; reflexivity | left; split; [reflexivity|lia] ].
Qed.

Lemma handlePrev_inv (st : State) : session_inv st -> session_inv (handlePrev st).
Proof.
  unfold session_inv, handlePrev. intros (Hm & Hi & Hs).
  destruct (Z.gtb_spec (currentStepIndex st) 0); simpl; [|tauto].
  split; [now destruct (_ <=? 18)|]. split; [lia|].
  destruct Hs as [[Hs Hlt]|Hs]; [left; split; [assumption|lia] | now right].
Qed.

Lemma handleReset_inv (st : State) : session_inv st -> session_inv (handleReset st).
Proof.
  unfold session_inv, handleReset; simpl. rewrite SCENARIO_length.
  intros (_ & _ & Hs). split; [reflexivity|]. split; [lia|].
  destruct Hs as [[Hs _]|Hs]; [left; split; [assumption|lia] | now right].
Qed.

Lemma animationTimeout_inv (st : State) :
  session_inv st -> session_inv (animationTimeout st).
Proof. unfold session_inv; simpl. tauto. Qed.

Lemma handle_inv (e : Event) (st : State) :
  session_inv st -> exists st', handle e st = Some st' /\ session_inv st'.
Proof.
  intros H. destruct e; simpl.
  - now apply handleNext_inv.
  - eexists; split; [reflexivity | now apply handlePrev_inv].
  - eexists; split; [reflexivity | now apply handleReset_inv].
  - eexists; split; [reflexivity | now apply animationTimeout_inv].
Qed.

(** No run of clicks throws, and every state it passes through is a session
    state. *)
Lemma run_inv (events : list Event) (st : State) :
  session_inv st -> exists st', run events st = Some st' /\ session_inv st'.
Proof.
  revert st. induction events as [|e rest IH]; intros st H; simpl.
  - eauto.
  - destruct (handle_inv e st H) as (st1 & -> & H1). simpl. now apply IH.
Qed.


(** ** Writes, cell object by cell object *)

Lemma find_append {A : Type} (f : A -> bool) (l1 l2 : list A) :
  List.find f (l1 ++ l2)%list =
  match List.find f l1 with
  | Some x => Some x
  | None => List.find f l2
  end.
Proof.
  induction l1 as [|x l1 IH]; simpl; [reflexivity|].
  now destruct (f x).
Qed.

Lemma find_rev_cons (u : MemoryUpdate) (rest : list MemoryUpdate) (a : Z) :
  last_write (u :: rest) a =
  match last_write rest a with
  | Some v => Some v
  | None => if upd_address u =? a then Some (upd_value u) else None
  end.
Proof.
  unfold last_write. simpl rev. rewrite find_append.
  destruct (List.find _ (rev rest)); simpl; [reflexivity|].
  now destruct (upd_address u =? a).
Qed.

Lemma last_write_none (updates : list MemoryUpdate) (a : Z) :
  no_update_for updates a -> last_write updates a = None.
Proof.
  unfold no_update_for. induction 1 as [|u rest Hu _ IH]; [reflexivity|].
  rewrite find_rev_cons, IH.
  now destruct (Z.eqb_spec (upd_address u) a).
Qed.

Lemma last_update_for_cons (u : MemoryUpdate) (rest : list MemoryUpdate)
    (a : Z) (v : string) :
  last_update_for (u :: rest) a v ->
  last_update_for rest a v \/
  (upd_address u = a /\ upd_value u = v /\ no_update_for rest a).
Proof.
  intros (before & u0 & after & Heq & Ha & Hv & Hafter).
  destruct before as [|b before]; simpl in Heq; injection Heq as -> ->.
  - right. auto.
  - left. exists before, u0, after. auto.
Qed.

Lemma last_write_some (updates : list MemoryUpdate) (a : Z) (v : string) :
  last_update_for updates a v -> last_write updates a = Some v.
Proof.
  induction updates as [|u rest IH]; intros H.
  - destruct H as (before & u0 & after & Heq & _).
    now destruct before.
  - rewrite find_rev_cons.
    apply last_update_for_cons in H as [H | (Ha & Hv & Hnone)].
    + now rewrite (IH H).
    + rewrite (last_write_none rest a Hnone), Ha, Z.eqb_refl. now rewrite Hv.
Qed.

Section FirstCell.

Variable arr : list Ref.

Lemma find_cell_is_first (s : Store) (a : Z) (r : Ref) :
  find_cell s a arr = Some (Some r) -> first_with_address s arr a r.
Proof.
  induction arr as [|r0 rest IH]; simpl; [discriminate|].
  destruct (s !! r0) as [c0|] eqn:Hc0; simpl; [|discriminate].
  destruct (Z.eqb_spec (address c0) a) as [Ha|Ha].
  - intros [= <-]. exists 0%nat. rewrite Hc0. simpl.
    repeat split; [now rewrite Ha | lia].
  - intros H. destruct (IH H) as (i & Hi & Hr & Hfirst).
    exists (S i). repeat split; try assumption.
    intros [|j] r' Hj Hr'; simpl in Hr'.
    + injection Hr' as <-. rewrite Hc0. simpl. congruence.
    + apply (Hfirst j); [lia | assumption].
Qed.

Lemma find_cell_none_no_first (s : Store) (a : Z) (r : Ref) :
  find_cell s a arr = Some None -> ~ first_with_address s arr a r.
Proof.
  induction arr as [|r0 rest IH]; simpl.
  - intros _ (i & Hi & _). now destruct i.
  - destruct (s !! r0) as [c0|] eqn:Hc0; simpl; [|discriminate].
    destruct (Z.eqb_spec (address c0) a) as [Ha|Ha]; [discriminate|].
    intros H (i & Hi & Hr & Hfirst). destruct i as [|i]; simpl in Hi.
    + injection Hi as <-. rewrite Hc0 in Hr. simpl in Hr. congruence.
    + apply (IH H). exists i. repeat split; try assumption.
      intros j r' Hj Hr'. apply (Hfirst (S j)); [lia | assumption].
Qed.

Lemma first_with_address_unique (s : Store) (a : Z) (r r' : Ref) :
  first_with_address s arr a r -> first_with_address s arr a r' -> r = r'.
Proof.
  intros (i & Hi & Hr & Hfirst) (i' & Hi' & Hr' & Hfirst').
  destruct (Nat.lt_trichotomy i i') as [Hlt | [-> | Hlt]].
  - now destruct (Hfirst' i r Hlt Hi).
  - congruence.
  - now destruct (Hfirst i' r' Hlt Hi').
Qed.

Lemma first_with_address_same_addresses (s s' : Store) (a : Z) (r : Ref) :
  (forall r0, address <$> s' !! r0 = address <$> s !! r0) ->
  first_with_address s arr a r -> first_with_address s' arr a r.
Proof.
  intros Hsame (i & Hi & Hr & Hfirst). exists i.
  repeat split; [assumption | now rewrite Hsame |].
  intros j r' Hj Hr'. rewrite Hsame. now apply (Hfirst j).
Qed.

(** One [forEach] turn, read on the cell objects. *)
Lemma apply_update_store (s : Store) (update : MemoryUpdate) :
  all_cells s arr = true ->
  exists s', apply_update arr s update = Some s' /\
    all_cells s' arr = true /\
    (forall r, address <$> s' !! r = address <$> s !! r) /\
    forall r c, s !! r = Some c ->
      exists c', s' !! r = Some c' /\
        address c' = address c /\ type c' = type c /\
        description c' = description c /\
        (first_with_address s arr (upd_address update) r ->
         content c' = upd_value update) /\
        (~ first_with_address s arr (upd_address update) r -> c' = c).
Proof.
  intros Hok. unfold apply_update.
  destruct (find_cell_total arr s (upd_address update) Hok) as [[r0|] Hfind];
    rewrite Hfind; simpl.
  - apply find_cell_is_first in Hfind.
    eexists; split; [reflexivity|]. split; [now rewrite all_cells_alter|].
    split.
    + intros r. rewrite list_lookup_alter.
      destruct (decide (r0 = r)) as [->|_]; [|reflexivity].
      now destruct (s !! r).
    + intros r c Hc. rewrite list_lookup_alter.
      destruct (decide (r0 = r)) as [->|Hne].
      * rewrite Hc. simpl. eexists; split; [reflexivity|].
        simpl. repeat split; try reflexivity. intros H. now contradiction H.
      * exists c. repeat split; try assumption; try reflexivity.
        intros H. contradiction Hne.
        exact (first_with_address_unique s _ r0 r Hfind H).
  - exists s. split; [reflexivity|]. split; [assumption|].
    split; [reflexivity|].
    intros r c Hc. exists c. repeat split; try assumption; try reflexivity.
    intros H. now apply (find_cell_none_no_first s _ r Hfind) in H.
Qed.

(** The whole [forEach], read on the cell objects. *)
Lemma apply_updates_store (updates : list MemoryUpdate) (s : Store) :
  all_cells s arr = true ->
  exists s', apply_updates arr updates s = Some s' /\
    all_cells s' arr = true /\
    (forall r, address <$> s' !! r = address <$> s !! r) /\
    forall r c, s !! r = Some c ->
      exists c', s' !! r = Some c' /\
        address c' = address c /\ type c' = type c /\
        description c' = description c /\
        (first_with_address s arr (address c) r ->
         content c' = default (content c) (last_write updates (address c))) /\
        (~ first_with_address s arr (address c) r -> content c' = content c).
Proof.
  revert s. induction updates as [|u rest IH]; intros s Hok; simpl.
  - exists s. repeat split; try assumption.
    intros r c Hc. exists c. repeat split; assumption.
  - destruct (apply_update_store s u Hok) as (s1 & -> & Hok1 & Hsame1 & Hcell1).
    simpl. destruct (IH s1 Hok1) as (s' & Hrun & Hok' & Hsame' & Hcell').
    exists s'. split; [exact Hrun|]. split; [exact Hok'|].
    split; [intros r; now rewrite Hsame', Hsame1|].
    intros r c Hc.
    destruct (Hcell1 r c Hc) as (c1 & Hc1 & Ha1 & Ht1 & Hd1 & Hw1 & Hk1).
    destruct (Hcell' r c1 Hc1) as (c' & Hc' & Ha' & Ht' & Hd' & Hw' & Hk').
    exists c'. split; [exact Hc'|].
    split; [congruence|]. split; [congruence|]. split; [congruence|].
    assert (Hother : upd_address u <> address c ->
                     ~ first_with_address s arr (upd_address u) r).
    { intros Hne (i & _ & Hr & _). rewrite Hc in Hr. simpl in Hr. congruence. }
    rewrite Ha1 in *. split.
    + intros Hfirst.
      rewrite Hw' by (now apply (first_with_address_same_addresses s s1)).
      rewrite find_rev_cons.
      destruct (last_write rest (address c)) as [v|]; simpl; [reflexivity|].
      destruct (Z.eqb_spec (upd_address u) (address c)) as [Heq|Hne]; simpl.
      * apply Hw1. now rewrite Heq.
      * now rewrite (Hk1 (Hother Hne)).
    + intros Hnot.
      rewrite Hk'.
      * destruct (Z.eq_dec (upd_address u) (address c)) as [Heq|Hne].
        -- rewrite Hk1; [reflexivity|]. now rewrite Heq.
        -- now rewrite (Hk1 (Hother Hne)).
      * intros H. apply Hnot.
        apply (first_with_address_same_addresses s1 s); [|exact H].
        intros r0. now rewrite Hsame1.
Qed.

(** The same with the last update named by its place in the list. *)
Lemma apply_updates_written (updates : list MemoryUpdate) (s : Store) :
  all_cells s arr = true ->
  exists s', apply_updates arr updates s = Some s' /\
    forall r c, s !! r = Some c ->
      exists c', s' !! r = Some c' /\ written_by s arr updates r c c'.
Proof.
  intros Hok.
  destruct (apply_updates_store updates s Hok) as (s' & Hrun & _ & _ & Hcell).
  exists s'. split; [exact Hrun|].
  intros r c Hc.
  destruct (Hcell r c Hc) as (c' & Hc' & Ha & Ht & Hd & Hw & Hk).
  exists c'. split; [exact Hc'|]. unfold written_by.
  repeat split; try assumption.
  - intros v Hfirst Hlast. rewrite (Hw Hfirst).
    now rewrite (last_write_some updates (address c) v Hlast).
  - intros Hnone.
    assert (Hcases : first_with_address s arr (address c) r ->
                     content c' = content c).
    { intros Hfirst. rewrite (Hw Hfirst).
      now rewrite (last_write_none updates (address c) Hnone). }
    destruct (find_cell_total arr s (address c) Hok) as [[r0|] Hfind].
    + apply find_cell_is_first in Hfind.
      destruct (decide (r0 = r)) as [->|Hne]; [auto|].
      apply Hk. intros H. apply Hne.
      exact (first_with_address_unique s _ r0 r Hfind H).
    + apply Hk. now apply find_cell_none_no_first.
Qed.

End FirstCell.

(** ** Advancing *)

(** An update whose address no cell of the array has changes nothing and
    does not throw: the [if (cell)] guard of [handleNext]. *)
Lemma apply_update_absent (arr : list Ref) (s : Store) (update : MemoryUpdate) :
  all_cells s arr = true ->
  cell_at s arr (upd_address update) = None ->
  apply_update arr s update = Some s.
Proof.
  intros Hok Habs. unfold apply_update, cell_at in *.
  destruct (find_cell_total arr s (upd_address update) Hok) as [[r|] Hfind];
    rewrite Hfind in *; simpl; [|reflexivity].
  apply find_cell_found in Hfind as (_ & c & Hc & _). congruence.
Qed.

(** C5. In a state whose position is below the last one, [handleNext]
    moves the position up by exactly one and applies the [memoryUpdates] of
    the step it arrives at: in list order, each update overwrites the
    content of the cell at its address, and an update whose address the
    memory does not have changes nothing.  The array of cells keeps its
    elements and the animation flag is raised.  The last part says it cell
    object by cell object: the first cell of the array with an address
    ends with the value of the last update for that address as content,
    every other cell object keeps its content, and no cell object changes
    address, type or description. *)
Theorem handleNext_advances (st : State) :
  all_cells (store st) (memory st) = true ->
  0 <= currentStepIndex st < length_of SCENARIO - 1 ->
  exists nextStep st',
    at_index SCENARIO (currentStepIndex st + 1) = Some nextStep /\
    handleNext st = Some st' /\
    currentStepIndex st' = currentStepIndex st + 1 /\
    memory st' = memory st /\
    isAnimating st' = true /\
    (forall a, memory_at st' a =
               overwrite_all (updates_of nextStep) (memory_at st) a) /\
    (forall update s, all_cells s (memory st) = true ->
       cell_at s (memory st) (upd_address update) = None ->
       apply_update (memory st) s update = Some s) /\
    (forall r c, store st !! r = Some c ->
       exists c', store st' !! r = Some c' /\
         written_by (store st) (memory st) (updates_of nextStep) r c c').
Proof.
  intros Hok Hi. unfold handleNext.
  destruct (Z.ltb_spec (currentStepIndex st) (length_of SCENARIO - 1)); [|lia].
  destruct (at_index_in_range SCENARIO (currentStepIndex st + 1))
    as [nextStep Hnext]; [lia|].
  rewrite Hnext. simpl. exists nextStep. unfold updates_of.
  destruct (memoryUpdates nextStep) as [updates|]; simpl.
  - destruct (apply_updates_overwrite (memory st) updates (store st) Hok)
      as (s' & Hrun & _ & Hmap).
    destruct (apply_updates_written (memory st) updates (store st) Hok)
      as (s2 & Hrun2 & Hcells).
    rewrite Hrun in Hrun2. injection Hrun2 as <-. rewrite Hrun.
    simpl. eexists. do 5 (split; [reflexivity|]).
    split; [exact Hmap|]. split; [|exact Hcells].
    intros update s. apply apply_update_absent.
  - destruct (apply_updates_written (memory st) [] (store st) Hok)
      as (s2 & Hrun2 & Hcells).
    injection Hrun2 as <-.
    eexists. do 5 (split; [reflexivity|]).
    split; [reflexivity|]. split; [|exact Hcells].
    intros update s. apply apply_update_absent.
Qed.

(** The lower bound on the position is needed: below -1 the step read
    at the next index is [undefined] and reading its [memoryUpdates]
    throws. *)
Lemma handleNext_below_script (st : State) :
  currentStepIndex st < -1 -> handleNext st = None.
Proof.
  intros H. unfold handleNext, at_index.
  destruct (Z.ltb_spec (currentStepIndex st) (length_of SCENARIO - 1));
    [|rewrite SCENARIO_length in *; lia].
  now destruct (Z.leb_spec 0 (currentStepIndex st + 1)); [lia|].
Qed.

Example before_store_reached : after 17 = Some before_store.
Proof. vm_compute. reflexivity. Qed.

Lemma handleNext_advances_witness :
  all_cells (store before_store) (memory before_store) = true /\
  0 <= currentStepIndex before_store < length_of SCENARIO - 1 /\
  exists nextStep st',
    at_index SCENARIO (currentStepIndex before_store + 1) = Some nextStep /\
    handleNext before_store = Some st' /\
    currentStepIndex st' = currentStepIndex before_store + 1 /\
    memory st' = memory before_store /\
    isAnimating st' = true /\
    (forall a, memory_at st' a =
               overwrite_all (updates_of nextStep) (memory_at before_store) a) /\
    (forall update s, all_cells s (memory before_store) = true ->
       cell_at s (memory before_store) (upd_address update) = None ->
       apply_update (memory before_store) s update = Some s) /\
    (forall r c, store before_store !! r = Some c ->
       exists c', store st' !! r = Some c' /\
         written_by (store before_store) (memory before_store)
           (updates_of nextStep) r c c').
Proof.
  assert (Hok : all_cells (store before_store) (memory before_store) = true)
    by reflexivity.
  assert (Hi : 0 <= currentStepIndex before_store < length_of SCENARIO - 1)
    by (rewrite SCENARIO_length; simpl; lia).
  split; [exact Hok|]. split; [exact Hi|].
  apply (handleNext_advances before_store Hok Hi).
Defined.

(** C6. On the last step [handleNext] changes nothing: the state it
    returns is the state it was given, position and memory included. *)
Theorem handleNext_at_last_step (st : State) :
  currentStepIndex st = length_of SCENARIO - 1 ->
  handleNext st = Some st.
Proof.
  intros H. unfold handleNext. rewrite H. now rewrite Z.ltb_irrefl.
Qed.

Example at_last_step_reached :
  run (repeat Next 19 ++ [Timeout]) initialState = Some at_last_step.
Proof. vm_compute. reflexivity. Qed.

Lemma handleNext_at_last_step_witness :
  currentStepIndex at_last_step = length_of SCENARIO - 1 /\
  handleNext at_last_step = Some at_last_step.
Proof.
  split; [reflexivity|].
  apply (handleNext_at_last_step at_last_step). reflexivity.
Defined.

(** ** Retreating and resetting *)

(** C7. On step 0 [handlePrev] changes nothing: the state it returns is
    the state it was given, position and memory included. *)
Theorem handlePrev_at_first_step (st : State) :
  currentStepIndex st = 0 -> handlePrev st = st.
Proof.
  intros H. unfold handlePrev. now rewrite H.
Qed.

Lemma handlePrev_at_first_step_witness :
  currentStepIndex initialState = 0 /\ handlePrev initialState = initialState.
Proof.
  split; [reflexivity|].
  apply (handlePrev_at_first_step initialState). reflexivity.
Defined.

(** Each handler keeps the position inside the script, whatever the
    memory is. *)
Lemma handleNext_position_bound (st st' : State) :
  0 <= currentStepIndex st < length_of SCENARIO ->
  handleNext st = Some st' ->
  0 <= currentStepIndex st' < length_of SCENARIO.
Proof.
  intros Hi. unfold handleNext.
  destruct (Z.ltb_spec (currentStepIndex st) (length_of SCENARIO - 1));
    [|now intros [= <-]].
  destruct (at_index SCENARIO (currentStepIndex st + 1)) as [nextStep|];
    simpl; [|discriminate].
  destruct (memoryUpdates nextStep) as [updates|].
  - destruct (apply_updates _ _ _); simpl; [|discriminate].
    intros [= <-]. simpl. lia.
  - intros [= <-]. simpl. lia.
Qed.

Lemma handlePrev_position_bound (st : State) :
  0 <= currentStepIndex st < length_of SCENARIO ->
  0 <= currentStepIndex (handlePrev st) < length_of SCENARIO.
Proof.
  intros Hi. unfold handlePrev.
  destruct (Z.gtb_spec (currentStepIndex st) 0); simpl; lia.
Qed.

Lemma handleReset_position_bound (st : State) :
  0 <= currentStepIndex (handleReset st) < length_of SCENARIO.
Proof. simpl. rewrite SCENARIO_length. lia. Qed.

(** C8. Whatever clicks and timer callbacks a session has seen, none of
    them threw, the position is at least 0 and below the length of the
    script, and [SCENARIO[currentStepIndex]] is a step. *)
Theorem position_in_range (events : list Event) :
  exists st, run events initialState = Some st /\
    0 <= currentStepIndex st < length_of SCENARIO /\
    is_Some (currentStep st).
Proof.
  destruct (run_inv events initialState session_inv_initial) as (st & Hrun & Hinv).
  exists st. split; [exact Hrun|].
  destruct Hinv as (_ & Hi & _). split; [exact Hi|].
  now apply at_index_in_range.
Qed.

(** ** Highlighting *)

Lemma bus_field_is_true (f : BusActive -> string) (step : Step) (s : string) :
  bus_field_is f step s = true <->
  exists b, busActive step = Some b /\ f b = s.
Proof.
  unfold bus_field_is. destruct (busActive step) as [b|]; split.
  - intros H. apply String.eqb_eq in H. eauto.
  - intros (b' & [= <-] & H). now apply String.eqb_eq.
  - discriminate.
  - intros (b' & [=] & _).
Qed.

Lemma updates_some_true (step : Step) (cell : MemoryCell) :
  updates_some step cell = true <->
  exists u, In u (updates_of step) /\ upd_address u = address cell.
Proof.
  unfold updates_some, updates_of.
  destruct (memoryUpdates step) as [updates|]; simpl.
  - rewrite existsb_exists. split; intros (u & Hin & Hu); exists u;
      (split; [exact Hin|]); now apply Z.eqb_eq.
  - split; [discriminate | intros (u & [] & _)].
Qed.

Lemma isAddressed_true (step : Step) (cell : MemoryCell) :
  isAddressed step cell = true <->
  isActive step "AddressBus" = true /\
  exists b, busActive step = Some b /\
    bus_value b = String_of_number (address cell).
Proof.
  unfold isAddressed. rewrite andb_true_iff, String.eqb_eq.
  destruct (busActive step) as [b|]; split.
  - intros [Ha Hv]. eauto.
  - intros (Ha & b' & [= <-] & Hv). auto.
  - intros [_ Hv]. symmetry in Hv. now apply String_of_number_defined in Hv.
  - intros (_ & b' & [=] & _).
Qed.

Lemma isTarget_true (step : Step) (cell : MemoryCell) :
  isTarget step cell = true <->
  isActive step "Memory" = true /\
  ((exists b, busActive step = Some b /\
      (bus_from b = "PC" \/ bus_from b = "CU") /\
      bus_value b = String_of_number (address cell))
   \/ (exists b, busActive step = Some b /\
         (bus_from b = "Memory" \/ bus_to b = "Memory") /\
         bus_value b = content cell)
   \/ (exists u, In u (updates_of step) /\ upd_address u = address cell)).
Proof.
  unfold isTarget.
  rewrite andb_true_iff, !orb_true_iff, !andb_true_iff,
    !bus_field_is_true, updates_some_true.
  split; intros [Hm H]; (split; [exact Hm|]).
  - destruct H as [[[[[(b & Hb & Ht) (b' & Hb' & Hv)]
                     | [(b & Hb & Hf) (b' & Hb' & Hv)]]
                     | [(b & Hb & Hf) (b' & Hb' & Hv)]]
                     | [(b & Hb & Hf) (b' & Hb' & Hv)]] | Hu];
      try (assert (b' = b) as -> by congruence).
    + right; left. exists b. tauto.
    + right; left. exists b. tauto.
    + left. exists b. tauto.
    + left. exists b. tauto.
    + right; right. exact Hu.
  - destruct H as [(b & Hb & [Hf|Hf] & Hv)
                  | [(b & Hb & [Hf|Hf] & Hv) | Hu]].
    + left; right. split; eauto.
    + left; left; right. split; eauto.
    + left; left; left; right. split; eauto.
    + left; left; left; left. split; eauto.
    + right. exact Hu.
Qed.

(** Whatever the step, a cell is highlighted exactly when the address
    bus is active and the transfer value is the cell's address, or Memory
    is among the active components and one of these holds: the transfer
    leaves PC or CU with the cell's address as value, Memory is an end of
    the transfer and the value is the cell's content, the step updates the
    cell's address. *)
Theorem highlighted_iff_coded (step : Step) (cell : MemoryCell) :
  highlighted step cell = true <-> targeting_as_coded step cell.
Proof.
  unfold highlighted, targeting_as_coded.
  now rewrite orb_true_iff, isAddressed_true, isTarget_true.
Qed.

(** The guard on Memory is not idle in itself: for a step, not in the
    script, whose transfer leaves Memory while Memory is not listed as
    active, the content matches and nothing is highlighted. *)
Lemma highlighted_needs_Memory_active :
  ~ (highlighted unlisted_memory_step halt_cell = true <->
     targeting_as_specified unlisted_memory_step halt_cell).
Proof.
  intros [_ H]. enough (highlighted unlisted_memory_step halt_cell = true)
    by discriminate.
  apply H. right; left. eexists. split; [reflexivity|]. split; [now left|].
  reflexivity.
Qed.





(** ** The script against the seed table *)

(** C10. Every address that a [memoryUpdates] entry of the script names is
    the address of a cell of [INITIAL_MEMORY]; hence in any state of a
    session the [find] of [handleNext] reaches a cell for it, and the
    branch where [cell] is [undefined] is never taken. *)
Theorem script_updates_seeded (step : Step) (update : MemoryUpdate) :
  In step SCENARIO -> In update (updates_of step) ->
  (exists c, In c INITIAL_MEMORY_cells /\ address c = upd_address update) /\
  (forall events st, run events initialState = Some st ->
     exists r, find_cell (store st) (upd_address update) (memory st)
               = Some (Some r)).
Proof.
  intros Hstep Hupd.
  assert (Hu : update = {| upd_address := 12; upd_value := "8" |}).
  { simpl in Hstep.
    repeat (destruct Hstep as [<- | Hstep]; [try (destruct Hupd; fail)|]);
      [|destruct Hstep].
    simpl in Hupd. now destruct Hupd as [<- | []]. }
  subst update. split.
  - eexists. split; [simpl; do 7 right; left; reflexivity | reflexivity].
  - intros events st Hrun.
    destruct (run_inv events initialState session_inv_initial)
      as (st' & Hrun' & (Hm & _ & Hs)).
    rewrite Hrun in Hrun'. injection Hrun' as <-. rewrite Hm.
    exists 7%nat. destruct Hs as [[-> _] | ->]; reflexivity.
Qed.

Lemma script_updates_seeded_witness :
  In store_step SCENARIO /\
  In {| upd_address := 12; upd_value := "8" |} (updates_of store_step) /\
  (exists c, In c INITIAL_MEMORY_cells /\ address c = 12) /\
  (forall events st, run events initialState = Some st ->
     exists r, find_cell (store st) 12 (memory st) = Some (Some r)).
Proof.
  assert (Hstep : In store_step SCENARIO)
    by (simpl; do 18 right; left; reflexivity).
  assert (Hupd : In {| upd_address := 12; upd_value := "8" |}
                   (updates_of store_step))
    by (simpl; left; reflexivity).
  split; [exact Hstep|]. split; [exact Hupd|].
  apply (script_updates_seeded store_step
           {| upd_address := 12; upd_value := "8" |} Hstep Hupd).
Defined.

(** ** Playing the script *)

(** C4. A fresh session shows step 0 with [pc = 0], [acc = 0] and an empty
    [ir]; after 6 clicks on "next" the step shown has [acc = 3], after 13
    it has [acc = 8], after 18 the cell at address 12 holds the text 8, and
    it still does after the 19th click, which reaches the last step. *)
Theorem scenario_walkthrough :
  (currentStepIndex initialState = 0 /\
   (currentStep initialState ≫= pc) = Some 0 /\
   (currentStep initialState ≫= acc) = Some 0 /\
   (currentStep initialState ≫= ir) = Some "") /\
  (exists st, after 6 = Some st /\ (currentStep st ≫= acc) = Some 3) /\
  (exists st, after 13 = Some st /\ (currentStep st ≫= acc) = Some 8) /\
  (exists st, after 18 = Some st /\
     content <$> memory_at st 12 = Some "8") /\
  (exists st, after 19 = Some st /\
     currentStepIndex st = length_of SCENARIO - 1 /\
     content <$> memory_at st 12 = Some "8").
Proof.
  split; [repeat split|].
  repeat split; eexists; (split; [vm_compute; reflexivity|]); repeat split.
Qed.

(** The memory the specification prescribes: the seed table up to
    position 17, the table with 8 at address 12 from position 18 on. *)
Lemma spec_memory_cases (p : nat) :
  ((p < 18)%nat -> spec_memory p = seed_table) /\
  ((18 <= p)%nat -> spec_memory p = STORED_cells).
Proof.
  do 18 (destruct p as [|p]; [split; [reflexivity | lia]|]).
  split; [lia|]. intros _.
  destruct p as [|p]; [reflexivity|].
  unfold spec_memory, spec_updates. simpl. now rewrite take_nil.
Qed.

(** X16. Played forward only, the session shows the memory the
    specification prescribes at every position: the seed table with the
    updates of steps 1 to that position applied.  At address 12 that is
    the authored 0 up to position 17 and the text 8 from position 18 on. *)
Lemma forward_play_replays (n : nat) :
  (n <= 19)%nat ->
  exists st, after n = Some st /\ currentStepIndex st = Z.of_nat n /\
    rendered st = Some (spec_memory n) /\
    exists cells, rendered st = Some cells /\
      content <$> table_at cells 12
      = Some (if (18 <=? n)%nat then "8" else "0").
Proof.
  intros Hn.
  do 20 (destruct n as [|n];
         [eexists; split; [vm_compute; reflexivity|];
          split; [vm_compute; reflexivity|];
          split; [vm_compute; reflexivity|];
          eexists; split; vm_compute; reflexivity|]).
  lia.
Qed.

(** In a session state the memory shown is the prescribed one exactly when
    the store has not been written or the position is 18 or 19. *)
Lemma rendered_replay_iff (st : State) :
  session_inv st ->
  (rendered st = Some (spec_memory (Z.to_nat (currentStepIndex st))) <->
   (store st = STORED_cells -> 18 <= currentStepIndex st)).
Proof.
  intros (Hm & Hi & Hs). rewrite SCENARIO_length in Hi.
  destruct (spec_memory_cases (Z.to_nat (currentStepIndex st))) as [Hlo Hhi].
  unfold rendered. rewrite Hm.
  destruct Hs as [[Hs Hlt] | Hs]; rewrite Hs.
  - rewrite Hlo by lia. split; [discriminate | reflexivity].
  - destruct (Z.lt_ge_cases (currentStepIndex st) 18).
    + rewrite Hlo by lia. split; [discriminate | intros H'; specialize (H' eq_refl); lia].
    + rewrite Hhi by lia. split; [auto | reflexivity].
Qed.

(** C1 where the code departs from it. After 18 clicks on "next" and one
    on "back" the position is 17 and the array is [INITIAL_MEMORY] again,
    but its cell for address 12 holds the text 8 that step 18 wrote into
    the shared object; the seed table with the updates of steps 1 to 17
    has the text 0 there. *)
Theorem retreat_after_store_shows_8 :
  exists st, run (repeat Next 18 ++ [Prev]) initialState = Some st /\
    currentStepIndex st = 17 /\
    memory st = INITIAL_MEMORY /\
    content <$> memory_at st 12 = Some "8" /\
    content <$> table_at (spec_memory 17) 12 = Some "0" /\
    rendered st <> Some (spec_memory 17).
Proof.
  eexists. split; [vm_compute; reflexivity|]. repeat split.
  vm_compute. discriminate.
Qed.

(** [handleReset] always sets the position to 0, installs the array
    [INITIAL_MEMORY] and lowers the animation flag. *)
Lemma handleReset_fields (st : State) :
  currentStepIndex (handleReset st) = 0 /\
  memory (handleReset st) = INITIAL_MEMORY /\
  isAnimating (handleReset st) = false /\
  store (handleReset st) = store st.
Proof. repeat split. Qed.

(** What a reset shows is the seed table exactly when no cell object has
    been written so far. *)
Lemma handleReset_rendered_iff (st : State) :
  session_inv st ->
  (rendered (handleReset st) = Some seed_table <->
   store st = INITIAL_MEMORY_cells).
Proof.
  intros (_ & _ & Hs). unfold rendered; simpl.
  destruct Hs as [[-> _] | ->]; split; try reflexivity; discriminate.
Qed.

(** C2 where the code departs from it. A session played to its last step
    (19 clicks on "next") and then reset is at position 0 with the array
    [INITIAL_MEMORY], but the cell for address 12 holds the text 8, not the
    authored 0. *)
Theorem reset_after_play_shows_8 :
  exists st, run (repeat Next 19 ++ [Reset]) initialState = Some st /\
    currentStepIndex st = 0 /\
    memory st = INITIAL_MEMORY /\
    content <$> memory_at st 12 = Some "8" /\
    content <$> table_at seed_table 12 = Some "0" /\
    rendered st <> Some seed_table.
Proof.
  eexists. split; [vm_compute; reflexivity|]. repeat split.
  vm_compute. discriminate.
Qed.

(** "Next" then "back" returns to the position it started from. *)
Lemma next_prev_position (st st1 : State) :
  0 <= currentStepIndex st < length_of SCENARIO - 1 ->
  handleNext st = Some st1 ->
  currentStepIndex (handlePrev st1) = currentStepIndex st.
Proof.
  intros Hi. unfold handleNext.
  destruct (Z.ltb_spec (currentStepIndex st) (length_of SCENARIO - 1)); [|lia].
  destruct (at_index SCENARIO (currentStepIndex st + 1)) as [nextStep|];
    simpl; [|discriminate].
  assert (Hback : forall s m b,
    currentStepIndex (handlePrev
      {| store := s; currentStepIndex := currentStepIndex st + 1;
         memory := m; isAnimating := b |}) = currentStepIndex st).
  { intros s m b. unfold handlePrev. simpl.
    destruct (Z.gtb_spec (currentStepIndex st + 1) 0); simpl; lia. }
  destruct (memoryUpdates nextStep) as [updates|].
  - destruct (apply_updates _ _ _); simpl; [|discriminate].
    intros [= <-]. apply Hback.
  - intros [= <-]. apply Hback.
Qed.

(** In a session state below the last step, "next" then "back" gives back
    the store and the array, except from position 17 of a session whose
    store is still as authored. *)
Lemma next_prev_memory (st : State) :
  session_inv st ->
  currentStepIndex st < length_of SCENARIO - 1 ->
  currentStepIndex st <> 17 \/ store st = STORED_cells ->
  exists st1, handleNext st = Some st1 /\
    store (handlePrev st1) = store st /\
    memory (handlePrev st1) = memory st.
Proof.
  destruct st as [s i m b]. unfold session_inv; simpl.
  rewrite SCENARIO_length.
  intros (-> & Hi & Hs) Hlt Hex.
  assert (Hi' : 0 <= i < length_of SCENARIO) by (rewrite SCENARIO_length; lia).
  destruct Hs as [[-> _] | ->]; each_position Hi';
    try (exfalso; lia);
    try (destruct Hex as [Hex | Hex]; [exfalso; lia | discriminate Hex]);
    (eexists; split; [reflexivity|]; split; reflexivity).
Qed.

(** C3 where the code departs from it. From the state 17 clicks into a
    fresh session, "next" then "back" returns to position 17 with the array
    [INITIAL_MEMORY], but the cell for address 12, which held the text 0
    before the two clicks, holds the text 8 after them. *)
Theorem next_prev_at_17_shows_8 :
  exists st st1, after 17 = Some st /\
    currentStepIndex st = 17 /\
    handleNext st = Some st1 /\
    currentStepIndex (handlePrev st1) = 17 /\
    memory (handlePrev st1) = memory st /\
    content <$> memory_at st 12 = Some "0" /\
    content <$> memory_at (handlePrev st1) 12 = Some "8" /\
    rendered (handlePrev st1) <> rendered st.
Proof.
  eexists. eexists. split; [vm_compute; reflexivity|].
  split; [reflexivity|]. split; [vm_compute; reflexivity|].
  repeat split. vm_compute. discriminate.
Qed.

(** ** More on [find] and on the [forEach] of [handleNext] *)

(** X1. [find] gives the first cell of the array that has the address: no
    cell in front of it has it, and when [find] gives nothing no cell of the
    array has it.  Of two cells with one address only the first is ever
    written. *)
Theorem find_cell_first (s : Store) (arr : list Ref) (a : Z) :
  all_cells s arr = true ->
  (exists i r c, find_cell s a arr = Some (Some r) /\
     arr !! i = Some r /\ s !! r = Some c /\ address c = a /\
     forall j r' c', (j < i)%nat -> arr !! j = Some r' -> s !! r' = Some c' ->
                     address c' <> a)
  \/ (find_cell s a arr = Some None /\
      forall r c, In r arr -> s !! r = Some c -> address c <> a).
Proof.
  unfold all_cells. induction arr as [|r0 rest IH]; simpl; intros Hok.
  - right. split; [reflexivity|]. intros r c [].
  - apply andb_prop in Hok as [Hr Hrest]. apply Nat.ltb_lt in Hr.
    destruct (lookup_lt_is_Some_2 s r0 Hr) as [c0 Hc0]. rewrite Hc0. simpl.
    destruct (Z.eqb_spec (address c0) a) as [Ha|Ha].
    + left. exists 0%nat, r0, c0. repeat split; try assumption. lia.
    + destruct (IH Hrest) as [(i & r & c & Hf & Hi & Hc & Hca & Hfirst)
                             | [Hf Hnone]].
      * left. exists (S i), r, c. repeat split; try assumption.
        intros [|j] r' c' Hj Hr' Hc'; simpl in Hr'.
        -- injection Hr' as <-. congruence.
        -- apply (Hfirst j r' c'); [lia|assumption..].
      * right. split; [assumption|].
        intros r c [<-|Hin] Hc; [congruence | eauto].
Qed.

Lemma find_cell_first_witness :
  all_cells INITIAL_MEMORY_cells INITIAL_MEMORY = true /\
  ((exists i r c, find_cell INITIAL_MEMORY_cells 12 INITIAL_MEMORY
                  = Some (Some r) /\
      INITIAL_MEMORY !! i = Some r /\ INITIAL_MEMORY_cells !! r = Some c /\
      address c = 12 /\
      forall j r' c', (j < i)%nat -> INITIAL_MEMORY !! j = Some r' ->
                      INITIAL_MEMORY_cells !! r' = Some c' ->
                      address c' <> 12)
   \/ (find_cell INITIAL_MEMORY_cells 12 INITIAL_MEMORY = Some None /\
       forall r c, In r INITIAL_MEMORY -> INITIAL_MEMORY_cells !! r = Some c ->
                   address c <> 12)).
Proof.
  split; [reflexivity|].
  apply (find_cell_first INITIAL_MEMORY_cells INITIAL_MEMORY 12). reflexivity.
Defined.

(** Overwriting by a list comes down to its last entry per address. *)
Lemma overwrite_all_last (updates : list MemoryUpdate) (m : Mapping) (a : Z) :
  overwrite_all updates m a =
  match last_write updates a with
  | Some v => set_content v <$> m a
  | None => m a
  end.
Proof.
  revert m. induction updates as [|u rest IH]; intros m; [reflexivity|].
  simpl. rewrite IH, find_rev_cons. unfold overwrite.
  rewrite (Z.eqb_sym a). destruct (last_write rest a) as [v|].
  - destruct (upd_address u =? a); [|reflexivity].
    now destruct (m a).
  - now destruct (upd_address u =? a).
Qed.

(** X2. The [forEach] of [handleNext] does not throw.  Of every cell
    object it leaves address, type and description as they were.  The first
    cell of the array with an address ends with the value of the last update
    for that address as content, whatever came before it in the list; a cell
    whose address has no update, and a cell that is not the first of the
    array with its address, keep their content. *)
Theorem apply_updates_last_write (arr : list Ref) (updates : list MemoryUpdate)
    (s : Store) :
  all_cells s arr = true ->
  exists s', apply_updates arr updates s = Some s' /\
    (forall r c, s !! r = Some c ->
       exists c', s' !! r = Some c' /\ written_by s arr updates r c c') /\
    (forall a, cell_at s' arr a =
       match last_write updates a with
       | Some v => set_content v <$> cell_at s arr a
       | None => cell_at s arr a
       end).
Proof.
  intros Hok.
  destruct (apply_updates_overwrite arr updates s Hok) as (s' & Hrun & _ & Hmap).
  destruct (apply_updates_written arr updates s Hok) as (s2 & Hrun2 & Hcells).
  rewrite Hrun in Hrun2. injection Hrun2 as <-.
  exists s'. split; [exact Hrun|]. split; [exact Hcells|].
  intros a. rewrite Hmap. apply overwrite_all_last.
Qed.

Lemma apply_updates_last_write_witness :
  all_cells INITIAL_MEMORY_cells INITIAL_MEMORY = true /\
  exists s',
    apply_updates INITIAL_MEMORY three_updates INITIAL_MEMORY_cells = Some s' /\
    (forall r c, INITIAL_MEMORY_cells !! r = Some c ->
       exists c', s' !! r = Some c' /\
         written_by INITIAL_MEMORY_cells INITIAL_MEMORY three_updates r c c') /\
    (forall a, cell_at s' INITIAL_MEMORY a =
       match last_write three_updates a with
       | Some v => set_content v <$> cell_at INITIAL_MEMORY_cells INITIAL_MEMORY a
       | None => cell_at INITIAL_MEMORY_cells INITIAL_MEMORY a
       end).
Proof.
  split; [reflexivity|].
  apply (apply_updates_last_write INITIAL_MEMORY three_updates
           INITIAL_MEMORY_cells).
  reflexivity.
Defined.

(** The same three updates, run: address 12 ends with the later of its two
    values, address 10 with its one, the others as authored. *)
Example three_updates_run :
  option_map (map content)
    (apply_updates INITIAL_MEMORY three_updates INITIAL_MEMORY_cells)
  = Some ["LOAD 10"; "ADD 11"; "STORE 12"; "HALT"; "0000"; "4"; "5"; "8"].
Proof. vm_compute. reflexivity. Qed.

(** X3. Replaying a list of updates on the store it produced changes no
    cell of the mapping: advancing onto a step a second time shows the same
    memory. *)
Theorem apply_updates_again (arr : list Ref) (updates : list MemoryUpdate)
    (s s1 : Store) :
  all_cells s arr = true ->
  apply_updates arr updates s = Some s1 ->
  exists s2, apply_updates arr updates s1 = Some s2 /\
    forall a, cell_at s2 arr a = cell_at s1 arr a.
Proof.
  intros Hok Hrun.
  destruct (apply_updates_overwrite arr updates s Hok) as (s1' & Hrun1 & Hok1 & Hmap1).
  rewrite Hrun in Hrun1. injection Hrun1 as <-.
  destruct (apply_updates_overwrite arr updates s1 Hok1) as (s2 & Hrun2 & _ & Hmap2).
  exists s2. split; [exact Hrun2|].
  intros a. rewrite Hmap2, overwrite_all_last, Hmap1, overwrite_all_last.
  destruct (last_write updates a) as [v|]; [|reflexivity].
  now destruct (cell_at s arr a).
Qed.

Lemma apply_updates_again_witness :
  exists s2,
    apply_updates INITIAL_MEMORY (updates_of store_step) STORED_cells = Some s2 /\
    forall a, cell_at s2 INITIAL_MEMORY a = cell_at STORED_cells INITIAL_MEMORY a.
Proof.
  apply (apply_updates_again INITIAL_MEMORY (updates_of store_step)
           INITIAL_MEMORY_cells STORED_cells); reflexivity.
Defined.

Lemma same_but_content_refl (c : MemoryCell) : same_but_content c c.
Proof. now unfold same_but_content. Qed.

Lemma same_but_content_trans (c1 c2 c3 : MemoryCell) :
  same_but_content c1 c2 -> same_but_content c2 c3 -> same_but_content c1 c3.
Proof. unfold same_but_content. intros (-> & -> & ->). tauto. Qed.

Lemma same_but_content_store_refl (s : Store) : Forall2 same_but_content s s.
Proof.
  apply Forall_Forall2_diag, Forall_forall. intros c _.
  apply same_but_content_refl.
Qed.

Lemma apply_updates_same_but_content (arr : list Ref)
    (updates : list MemoryUpdate) (s s' : Store) :
  apply_updates arr updates s = Some s' -> Forall2 same_but_content s s'.
Proof.
  revert s. induction updates as [|u rest IH]; simpl; intros s.
  - intros [= <-]. apply same_but_content_store_refl.
  - unfold apply_update.
    destruct (find_cell s (upd_address u) arr) as [[r|]|]; simpl;
      [| apply IH | discriminate].
    intros Hrest. apply IH in Hrest.
    eapply Forall2_trans; [apply same_but_content_trans | | exact Hrest].
    apply Forall2_alter_r; [apply same_but_content_store_refl|].
    intros x y _ _ H. exact H.
Qed.

(** X4. Whatever the state, a click or the timer leaves every cell object
    its address, its type and its description, creates none and drops none:
    at most [content] is written. *)
Theorem handlers_write_content_only (e : Event) (st st' : State) :
  handle e st = Some st' ->
  Forall2 same_but_content (store st) (store st').
Proof.
  destruct e; simpl.
  - unfold handleNext.
    destruct (currentStepIndex st <? length_of SCENARIO - 1);
      [|intros [= <-]; apply same_but_content_store_refl].
    destruct (at_index SCENARIO (currentStepIndex st + 1)) as [nextStep|];
      simpl; [|discriminate].
    destruct (memoryUpdates nextStep) as [updates|].
    + destruct (apply_updates (memory st) updates (store st)) as [s'|] eqn:Hs;
        simpl; [|discriminate].
      intros [= <-]. simpl. now apply apply_updates_same_but_content in Hs.
    + intros [= <-]. apply same_but_content_store_refl.
  - intros [= <-]. unfold handlePrev.
    destruct (currentStepIndex st >? 0); apply same_but_content_store_refl.
  - intros [= <-]. apply same_but_content_store_refl.
  - intros [= <-]. apply same_but_content_store_refl.
Qed.

Lemma handlers_write_content_only_witness :
  handle Next before_store
  = Some {| store := STORED_cells; currentStepIndex := 18;
            memory := INITIAL_MEMORY; isAnimating := true |} /\
  Forall2 same_but_content INITIAL_MEMORY_cells STORED_cells.
Proof.
  assert (H : handle Next before_store
    = Some {| store := STORED_cells; currentStepIndex := 18;
              memory := INITIAL_MEMORY; isAnimating := true |})
    by reflexivity.
  split; [exact H|].
  apply (handlers_write_content_only Next before_store _ H).
Defined.

(** ** What a session can show *)

Lemma session_inv_run (events : list Event) (st : State) :
  run events initialState = Some st -> session_inv st.
Proof.
  intros Hrun.
  destruct (run_inv events initialState session_inv_initial) as (st' & Hrun' & H).
  congruence.
Qed.

Lemma stores_differ : INITIAL_MEMORY_cells <> STORED_cells.
Proof. vm_compute. discriminate. Qed.

(** The content shown at address 12 tells the two stores apart. *)
Lemma session_content_12 (st : State) :
  session_inv st ->
  (store st = INITIAL_MEMORY_cells /\ content <$> memory_at st 12 = Some "0")
  \/ (store st = STORED_cells /\ content <$> memory_at st 12 = Some "8").
Proof.
  destruct st as [s i m b]. unfold session_inv, memory_at; simpl.
  intros (-> & _ & [[-> _] | ->]); [left | right]; split; reflexivity.
Qed.

(** The store is written by "next" onto position 18 and by nothing else,
    and no handler takes the written value back. *)
Lemma handle_store_step (e : Event) (st st' : State) :
  session_inv st -> handle e st = Some st' ->
  (store st = STORED_cells -> store st' = STORED_cells) /\
  (store st = INITIAL_MEMORY_cells -> store st' = STORED_cells ->
   currentStepIndex st' = 18).
Proof.
  intros Hinv He.
  assert (Hsame : store st' = store st ->
    (store st = STORED_cells -> store st' = STORED_cells) /\
    (store st = INITIAL_MEMORY_cells -> store st' = STORED_cells ->
     currentStepIndex st' = 18)).
  { intros ->. split; [tauto|]. intros -> H. now apply stores_differ in H. }
  destruct e; simpl in He.
  - destruct st as [s i m b]. unfold session_inv in Hinv; simpl in *.
    destruct Hinv as (-> & Hi & [[-> Hlt] | ->]); each_position Hi;
      try (exfalso; simpl in Hlt; lia);
      vm_compute in He; injection He as <-;
      first [ apply Hsame; reflexivity
            | split; [reflexivity | intros _ _; reflexivity] ].
  - injection He as <-. apply Hsame. unfold handlePrev.
    now destruct (currentStepIndex st >? 0).
  - injection He as <-. now apply Hsame.
  - injection He as <-. now apply Hsame.
Qed.

Lemma visits_cons (p : Z) (e : Event) (rest : list Event) (st st1 : State) :
  handle e st = Some st1 ->
  (visits p (e :: rest) st <-> currentStepIndex st = p \/ visits p rest st1).
Proof.
  intros He. unfold visits. split.
  - intros (es1 & es2 & st2 & Heq & Hrun & Hp).
    destruct es1 as [|e' es1]; simpl in *.
    + left. congruence.
    + injection Heq as <- ->. rewrite He in Hrun. simpl in Hrun.
      right. exists es1, es2, st2. auto.
  - intros [Hp | (es1 & es2 & st2 & -> & Hrun & Hp)].
    + exists [], (e :: rest), st. auto.
    + exists (e :: es1), es2, st2. simpl. rewrite He. auto.
Qed.

Lemma written_iff_visits_from (events : list Event) (st st' : State) :
  session_inv st -> run events st = Some st' ->
  (store st' = STORED_cells <-> store st = STORED_cells \/ visits 18 events st).
Proof.
  revert st. induction events as [|e rest IH]; simpl; intros st Hinv Hrun.
  - injection Hrun as <-. split; [auto|].
    intros [H | (es1 & es2 & st1 & Heq & Hrun & Hp)]; [exact H|].
    symmetry in Heq. apply app_eq_nil in Heq as [-> _].
    injection Hrun as <-.
    destruct Hinv as (_ & _ & [[_ Hlt] | H]); [lia | exact H].
  - destruct (handle_inv e st Hinv) as (st1 & He & Hinv1).
    rewrite He in Hrun. simpl in Hrun.
    destruct (handle_store_step e st st1 Hinv He) as [Hmono Hwrite].
    rewrite (IH st1 Hinv1 Hrun), (visits_cons 18 e rest st st1 He).
    split.
    + intros [Hs1 | Hv]; [|auto].
      destruct Hinv as (_ & _ & [[Hs _] | Hs]); [|auto].
      right; right. exists [], rest, st1. auto.
    + intros [Hs | [Hp | Hv]]; [auto | | auto].
      left. apply Hmono.
      destruct Hinv as (_ & _ & [[_ Hlt] | H]); [lia | exact H].
Qed.

(** X5. In a session the cell at address 12 shows the text 8 exactly when
    the session has been on step 18 at some moment, whatever was clicked
    since; otherwise it shows the authored 0. *)
Theorem written_iff_visited (events : list Event) (st : State) :
  run events initialState = Some st ->
  (content <$> memory_at st 12 = Some "8" <-> visits 18 events initialState) /\
  (content <$> memory_at st 12 = Some "0" <-> ~ visits 18 events initialState).
Proof.
  intros Hrun.
  pose proof (written_iff_visits_from events initialState st
                session_inv_initial Hrun) as Hiff.
  assert (Hv : store st = STORED_cells <-> visits 18 events initialState).
  { rewrite Hiff. split; [|auto]. intros [H | H]; [|exact H].
    now apply stores_differ in H. }
  destruct (session_content_12 st (session_inv_run events st Hrun))
    as [[Hs Hc] | [Hs Hc]]; rewrite Hc.
  - assert (Hn : ~ visits 18 events initialState).
    { intros H. apply Hv in H. rewrite Hs in H. now apply stores_differ in H. }
    split; split; try discriminate; tauto.
  - assert (Hy : visits 18 events initialState) by now apply Hv.
    split; split; try discriminate; tauto.
Qed.

Lemma written_iff_visited_witness :
  exists st, run (repeat Next 18 ++ [Reset; Next]) initialState = Some st /\
  (content <$> memory_at st 12 = Some "8" <->
   visits 18 (repeat Next 18 ++ [Reset; Next]) initialState) /\
  (content <$> memory_at st 12 = Some "0" <->
   ~ visits 18 (repeat Next 18 ++ [Reset; Next]) initialState).
Proof.
  eexists.
  assert (H : run (repeat Next 18 ++ [Reset; Next]) initialState
              = Some {| store := STORED_cells; currentStepIndex := 1;
                        memory := INITIAL_MEMORY; isAnimating := true |})
    by (vm_compute; reflexivity).
  split; [exact H|].
  apply (written_iff_visited _ _ H).
Defined.

(** X6. In a session neither "back" nor the reset changes a single row of
    the memory panel: both install the array the panel already shows, whose
    cell objects keep what was written into them. *)
Theorem back_and_reset_keep_panel (events : list Event) (st : State) :
  run events initialState = Some st ->
  rendered (handlePrev st) = rendered st /\
  rendered (handleReset st) = rendered st.
Proof.
  intros Hrun. apply session_inv_run in Hrun as (Hm & _ & _).
  unfold rendered, handlePrev, handleReset. split.
  - destruct (currentStepIndex st >? 0); simpl; [|reflexivity].
    destruct (currentStepIndex st <=? 18); now rewrite ?Hm.
  - simpl. now rewrite Hm.
Qed.

Lemma back_and_reset_keep_panel_witness :
  exists st, run (repeat Next 19) initialState = Some st /\
    rendered (handlePrev st) = rendered st /\
    rendered (handleReset st) = rendered st.
Proof.
  eexists.
  assert (H : run (repeat Next 19) initialState
              = Some {| store := STORED_cells; currentStepIndex := 19;
                        memory := INITIAL_MEMORY; isAnimating := true |})
    by (vm_compute; reflexivity).
  split; [exact H|].
  apply (back_and_reset_keep_panel _ _ H).
Defined.

(** X7. Whenever the screen offers the reset control, the session is on the
    last step and a click on it leads to position 0 with the text 8 at
    address 12: the control never brings the authored memory back. *)
Theorem reset_control_never_restores (events : list Event) (st : State) :
  run events initialState = Some st ->
  forwardControl st = ResetButton ->
  currentStepIndex st = length_of SCENARIO - 1 /\
  currentStepIndex (handleReset st) = 0 /\
  content <$> memory_at (handleReset st) 12 = Some "8" /\
  rendered (handleReset st) <> Some seed_table.
Proof.
  intros Hrun. apply session_inv_run in Hrun.
  destruct st as [s i m b]. unfold session_inv in Hrun. simpl in Hrun.
  unfold forwardControl. simpl.
  destruct (Z.ltb_spec i (length_of SCENARIO - 1)); [discriminate|].
  intros _. rewrite SCENARIO_length in *.
  destruct Hrun as (-> & Hi & [[_ Hlt] | ->]); [lia|].
  split; [lia|]. split; [reflexivity|]. split; [reflexivity|].
  vm_compute. discriminate.
Qed.

Lemma reset_control_never_restores_witness :
  exists st, run (repeat Next 19) initialState = Some st /\
    forwardControl st = ResetButton /\
    currentStepIndex st = length_of SCENARIO - 1 /\
    currentStepIndex (handleReset st) = 0 /\
    content <$> memory_at (handleReset st) 12 = Some "8" /\
    rendered (handleReset st) <> Some seed_table.
Proof.
  eexists.
  assert (H : run (repeat Next 19) initialState
              = Some {| store := STORED_cells; currentStepIndex := 19;
                        memory := INITIAL_MEMORY; isAnimating := true |})
    by (vm_compute; reflexivity).
  split; [exact H|]. split; [reflexivity|].
  apply (reset_control_never_restores _ _ H). reflexivity.
Defined.

(** ** The controls against the handlers *)

(** X8. The controls and the guards of the handlers agree on every state
    with a position from 0 on: "back" is disabled exactly when [handlePrev]
    would change nothing, and the reset control replaces "next" exactly
    when [handleNext] would change nothing. *)
Theorem controls_match_guards (st : State) :
  0 <= currentStepIndex st ->
  (prevDisabled st = true <-> handlePrev st = st) /\
  (forwardControl st = ResetButton <-> handleNext st = Some st).
Proof.
  intros Hi. split.
  - unfold prevDisabled, handlePrev.
    destruct (Z.eqb_spec (currentStepIndex st) 0) as [H0|H0].
    + rewrite H0. simpl. tauto.
    + destruct (Z.gtb_spec (currentStepIndex st) 0); [|lia].
      split; [discriminate|]. intros Heq.
      apply (f_equal currentStepIndex) in Heq. simpl in Heq. lia.
  - unfold forwardControl, handleNext.
    destruct (Z.ltb_spec (currentStepIndex st) (length_of SCENARIO - 1));
      [|tauto].
    split; [discriminate|].
    destruct (at_index SCENARIO (currentStepIndex st + 1)) as [nextStep|];
      simpl; [|discriminate].
    destruct (memoryUpdates nextStep) as [updates|].
    + destruct (apply_updates _ _ _); simpl; [|discriminate].
      intros [= Heq]. apply (f_equal currentStepIndex) in Heq.
      simpl in Heq. lia.
    + intros [= Heq]. apply (f_equal currentStepIndex) in Heq.
      simpl in Heq. lia.
Qed.

Lemma controls_match_guards_witness :
  0 <= currentStepIndex at_last_step /\
  (prevDisabled at_last_step = true <-> handlePrev at_last_step = at_last_step) /\
  (forwardControl at_last_step = ResetButton <->
   handleNext at_last_step = Some at_last_step).
Proof.
  assert (H : 0 <= currentStepIndex at_last_step) by (simpl; lia).
  split; [exact H|].
  apply (controls_match_guards at_last_step H).
Defined.

(** X9. In a session, from any step but the first, "back" then "next"
    returns to the same position with the same array and the same content
    in every cell object. *)
Theorem prev_next_roundtrip (events : list Event) (st : State) :
  run events initialState = Some st ->
  0 < currentStepIndex st ->
  exists st', handleNext (handlePrev st) = Some st' /\
    currentStepIndex st' = currentStepIndex st /\
    memory st' = memory st /\
    store st' = store st.
Proof.
  intros Hrun. apply session_inv_run in Hrun.
  destruct st as [s i m b]. unfold session_inv in Hrun. simpl in *.
  intros Hpos.
  destruct Hrun as (-> & Hi & [[-> Hlt] | ->]); each_position Hi;
    try (exfalso; simpl in *; lia);
    (eexists; split; [vm_compute; reflexivity|]); repeat split.
Qed.

Lemma prev_next_roundtrip_witness :
  exists st, run (repeat Next 18) initialState = Some st /\
    0 < currentStepIndex st /\
    exists st', handleNext (handlePrev st) = Some st' /\
      currentStepIndex st' = currentStepIndex st /\
      memory st' = memory st /\
      store st' = store st.
Proof.
  eexists.
  assert (H : run (repeat Next 18) initialState
              = Some {| store := STORED_cells; currentStepIndex := 18;
                        memory := INITIAL_MEMORY; isAnimating := true |})
    by (vm_compute; reflexivity).
  assert (Hpos : 0 < currentStepIndex
                       {| store := STORED_cells; currentStepIndex := 18;
                          memory := INITIAL_MEMORY; isAnimating := true |})
    by (simpl; lia).
  split; [exact H|]. split; [exact Hpos|].
  apply (prev_next_roundtrip _ _ H Hpos).
Defined.

(** X10. In a session, "next" then "back" from a step below the last gives
    the array and every cell object back as they were, unless the step is
    17 and address 12 still shows the authored 0. *)
Theorem next_prev_restores_elsewhere (events : list Event) (st : State) :
  run events initialState = Some st ->
  currentStepIndex st < length_of SCENARIO - 1 ->
  currentStepIndex st <> 17 \/ content <$> memory_at st 12 = Some "8" ->
  exists st1, handleNext st = Some st1 /\
    currentStepIndex (handlePrev st1) = currentStepIndex st /\
    memory (handlePrev st1) = memory st /\
    store (handlePrev st1) = store st.
Proof.
  intros Hrun Hlt Hex. apply session_inv_run in Hrun.
  assert (Hex' : currentStepIndex st <> 17 \/ store st = STORED_cells).
  { destruct Hex as [H | H]; [now left|].
    destruct (session_content_12 st Hrun) as [[_ Hc] | [Hs _]];
      [congruence | now right]. }
  destruct (next_prev_memory st Hrun Hlt Hex') as (st1 & Hnext & Hs & Hm).
  exists st1. repeat split; try assumption.
  apply next_prev_position; [|exact Hnext].
  destruct Hrun as (_ & Hi & _). lia.
Qed.

Lemma next_prev_restores_elsewhere_witness :
  exists st, run (repeat Next 5) initialState = Some st /\
    exists st1, handleNext st = Some st1 /\
      currentStepIndex (handlePrev st1) = currentStepIndex st /\
      memory (handlePrev st1) = memory st /\
      store (handlePrev st1) = store st.
Proof.
  eexists.
  assert (H : run (repeat Next 5) initialState
              = Some {| store := INITIAL_MEMORY_cells; currentStepIndex := 5;
                        memory := INITIAL_MEMORY; isAnimating := true |})
    by (vm_compute; reflexivity).
  split; [exact H|].
  apply (next_prev_restores_elsewhere _ _ H).
  - rewrite SCENARIO_length. simpl. lia.
  - left. simpl. lia.
Defined.

(** ** The rows of the memory panel *)

(** X11. In a session the panel always has the eight rows of the authored
    table, in its order, with the authored address, type and description;
    a row whose address is not 12 is the authored cell, content included. *)
Theorem rows_differ_only_at_12 (events : list Event) (st : State) :
  run events initialState = Some st ->
  exists cells, rendered st = Some cells /\
    Forall2 (fun c c' => same_but_content c c' /\
                         (address c <> 12 -> c' = c))
            seed_table cells.
Proof.
  intros Hrun. apply session_inv_run in Hrun.
  destruct st as [s i m b]. unfold session_inv in Hrun. simpl in Hrun.
  destruct Hrun as (-> & _ & [[-> _] | ->]);
    (eexists; split; [vm_compute; reflexivity|]);
    unfold seed_table, INITIAL_MEMORY_cells;
    repeat (constructor; [split; [repeat split|]|]);
    try (intros _; reflexivity); try constructor.
  simpl. intros H. now contradiction H.
Qed.

Lemma rows_differ_only_at_12_witness :
  exists st, run (repeat Next 18 ++ [Prev]) initialState = Some st /\
    exists cells, rendered st = Some cells /\
      Forall2 (fun c c' => same_but_content c c' /\
                           (address c <> 12 -> c' = c))
              seed_table cells.
Proof.
  eexists.
  assert (H : run (repeat Next 18 ++ [Prev]) initialState
              = Some {| store := STORED_cells; currentStepIndex := 17;
                        memory := INITIAL_MEMORY; isAnimating := true |})
    by (vm_compute; reflexivity).
  split; [exact H|].
  apply (rows_differ_only_at_12 _ _ H).
Defined.

(** X12. In a session at most one row is highlighted, with one exception:
    on step 1 of a session where address 12 still shows the authored 0, the
    rows of address 0 and of address 12 are both highlighted, the second
    because its content is the text on the bus. *)
Theorem one_highlight_except_on_step_1 (events : list Event) (st : State) :
  run events initialState = Some st ->
  exists hs, highlightedAddresses st = Some hs /\
    (currentStepIndex st = 1 /\ content <$> memory_at st 12 = Some "0" ->
     hs = [0; 12]) /\
    (currentStepIndex st <> 1 \/ content <$> memory_at st 12 = Some "8" ->
     (length hs <= 1)%nat).
Proof.
  intros Hrun. apply session_inv_run in Hrun.
  destruct st as [s i m b]. unfold session_inv in Hrun. simpl in *.
  destruct Hrun as (-> & Hi & [[-> Hlt] | ->]); each_position Hi;
    try (exfalso; simpl in Hlt; lia);
    (eexists; split; [vm_compute; reflexivity|]);
    (split;
     [ first [ intros _; reflexivity
             | intros [H _]; exfalso; simpl in H; lia
             | intros [_ H]; exfalso; vm_compute in H; discriminate H ]
     | first [ intros _; simpl; lia
             | intros [H | H]; exfalso;
               [ simpl in H; lia | vm_compute in H; discriminate H ] ] ]).
Qed.

Lemma one_highlight_except_on_step_1_witness :
  exists st, run [Next] initialState = Some st /\
    exists hs, highlightedAddresses st = Some hs /\
      (currentStepIndex st = 1 /\ content <$> memory_at st 12 = Some "0" ->
       hs = [0; 12]) /\
      (currentStepIndex st <> 1 \/ content <$> memory_at st 12 = Some "8" ->
       (length hs <= 1)%nat).
Proof.
  eexists.
  assert (H : run [Next] initialState
              = Some {| store := INITIAL_MEMORY_cells; currentStepIndex := 1;
                        memory := INITIAL_MEMORY; isAnimating := true |})
    by (vm_compute; reflexivity).
  split; [exact H|].
  apply (one_highlight_except_on_step_1 _ _ H).
Defined.

(** ** The address labels *)

Lemma padStart_long (a b : ascii) (rest : string) (c : ascii) :
  padStart (String a (String b rest)) 2 c = String a (String b rest).
Proof. reflexivity. Qed.

(** The label of a number reads back as that number: a number of one digit
    gets a zero in front, any other is its own label. *)
Lemma read_label_padStart (d : Decimal.int) :
  read_label (padStart (NilZero.string_of_int d) 2 "0") = Some (Z.of_int d).
Proof.
  unfold read_label.
  destruct d as [u|u]; destruct u as [|u|u|u|u|u|u|u|u|u|u];
    try reflexivity;
    destruct u; try reflexivity;
    match goal with
    | |- context [padStart (NilZero.string_of_int ?d) _ _] =>
        change (padStart (NilZero.string_of_int d) 2 "0")
          with (NilZero.string_of_int d);
        rewrite NilZero.isi by discriminate; reflexivity
    end.
Qed.

Lemma read_label_addressLabel (cell : MemoryCell) :
  read_label (addressLabel cell) = Some (address cell).
Proof.
  unfold addressLabel, String_of_number.
  now rewrite read_label_padStart, DecimalZ.of_to.
Qed.

(** X13. Two cells with the same label have the same address: the padding
    to two characters never makes the rows of two addresses read alike. *)
Theorem addressLabel_injective (c1 c2 : MemoryCell) :
  safe_integer (address c1) -> safe_integer (address c2) ->
  addressLabel c1 = addressLabel c2 -> address c1 = address c2.
Proof.
  intros _ _ H. apply (f_equal read_label) in H.
  rewrite !read_label_addressLabel in H. congruence.
Qed.

Lemma addressLabel_injective_witness :
  addressLabel halt_cell = addressLabel (set_content "8" halt_cell) /\
  address halt_cell = address (set_content "8" halt_cell).
Proof.
  assert (H : addressLabel halt_cell = addressLabel (set_content "8" halt_cell))
    by reflexivity.
  split; [exact H|].
  apply (addressLabel_injective halt_cell (set_content "8" halt_cell)).
  - unfold safe_integer. simpl. lia.
  - unfold safe_integer. simpl. lia.
  - exact H.
Defined.

(** X14. A label is never shorter than two characters: it is a zero
    followed by the digit for an address from 0 to 9, and the decimal text
    of the address for any other. *)
Theorem addressLabel_shape (cell : MemoryCell) :
  safe_integer (address cell) ->
  (2 <= String.length (addressLabel cell))%nat /\
  (0 <= address cell <= 9 ->
   addressLabel cell = String "0" (String_of_number (address cell))) /\
  (address cell < 0 \/ 10 <= address cell ->
   addressLabel cell = String_of_number (address cell)).
Proof.
  intros _. unfold addressLabel, String_of_number.
  generalize (address cell) as n. intros n.
  split; [|split].
  - destruct (Z.to_int n) as [u|u];
      destruct u as [|u|u|u|u|u|u|u|u|u|u]; try (cbn; lia);
      destruct u; try (cbn; lia);
      match goal with
      | |- context [padStart (NilZero.string_of_int ?d) _ _] =>
          change (padStart (NilZero.string_of_int d) 2 "0")
            with (NilZero.string_of_int d)
      end; simpl; lia.
  - intros H.
    assert (Hk : exists k : nat, n = Z.of_nat k /\ (k < 10)%nat)
      by (exists (Z.to_nat n); lia).
    destruct Hk as (k & -> & Hk).
    do 10 (destruct k as [|k]; [reflexivity|]). lia.
  - intros H. pose proof (DecimalZ.of_to n) as Hn.
    destruct (Z.to_int n) as [u|u];
      destruct u as [|u|u|u|u|u|u|u|u|u|u];
      try (exfalso; vm_compute in Hn; lia);
      destruct u; try (exfalso; vm_compute in Hn; lia); reflexivity.
Qed.

Lemma addressLabel_shape_witness :
  safe_integer (address halt_cell) /\
  (2 <= String.length (addressLabel halt_cell))%nat /\
  (0 <= address halt_cell <= 9 ->
   addressLabel halt_cell = String "0" (String_of_number (address halt_cell))) /\
  (address halt_cell < 0 \/ 10 <= address halt_cell ->
   addressLabel halt_cell = String_of_number (address halt_cell)).
Proof.
  assert (H : safe_integer (address halt_cell))
    by (unfold safe_integer; simpl; lia).
  split; [exact H|].
  apply (addressLabel_shape halt_cell H).
Defined.

(** ** The panel against the prescribed replay *)

(** X15. In a session the panel shows the seed table with the updates of
    steps 1 to the current position applied exactly when address 12 still
    shows the authored 0 or the position is 18 or 19. *)
Theorem panel_replay_iff (events : list Event) (st : State) :
  run events initialState = Some st ->
  (rendered st = Some (spec_memory (Z.to_nat (currentStepIndex st))) <->
   (content <$> memory_at st 12 = Some "8" -> 18 <= currentStepIndex st)).
Proof.
  intros Hrun. apply session_inv_run in Hrun.
  rewrite (rendered_replay_iff st Hrun).
  destruct (session_content_12 st Hrun) as [[Hs Hc] | [Hs Hc]];
    rewrite Hs, Hc; split; intros H H'.
  - discriminate H'.
  - now apply stores_differ in H'.
  - now apply H.
  - now apply H.
Qed.

Lemma panel_replay_iff_witness :
  exists st, run (repeat Next 18 ++ [Prev]) initialState = Some st /\
    (rendered st = Some (spec_memory (Z.to_nat (currentStepIndex st))) <->
     (content <$> memory_at st 12 = Some "8" -> 18 <= currentStepIndex st)).
Proof.
  eexists.
  assert (H : run (repeat Next 18 ++ [Prev]) initialState
              = Some {| store := STORED_cells; currentStepIndex := 17;
                        memory := INITIAL_MEMORY; isAnimating := true |})
    by (vm_compute; reflexivity).
  split; [exact H|].
  apply (panel_replay_iff _ _ H).
Defined.

Lemma forward_play_replays_witness :
  (18 <= 19)%nat /\
  exists st, after 18 = Some st /\ currentStepIndex st = Z.of_nat 18 /\
    rendered st = Some (spec_memory 18) /\
    exists cells, rendered st = Some cells /\
      content <$> table_at cells 12
      = Some (if (18 <=? 18)%nat then "8" else "0").
Proof.
  assert (H : (18 <= 19)%nat) by lia.
  split; [exact H|].
  apply (forward_play_replays 18 H).
Defined.
